(** * go-metrics-service: the in-memory metrics store, its snapshot file,
      the audit notifier and the batch update handler

    The development follows the Go packages of the repository:

    - [golang]     the part of Go's semantics the code relies on (int64
                   arithmetic, error values, the file table behind
                   [os.ReadFile] / [os.WriteFile], the JSON codec and the
                   order of [range] over a map, both taken as interfaces);
    - [models]     the wire record [models.Metrics];
    - [repository] [MemStorage] and its methods;
    - [audit]      [Event], [Sink], [Auditor], [HTTPSink];
    - [handler]    [UpdatesHandler].

    Every method holds the storage mutex for its whole body, so a method is
    one atomic step on the pair of maps; the model is sequential and passes
    the receiver's state explicitly.  Definitions come first, the theorems
    about them follow in the second half of the file. *)

From Stdlib Require Import ZArith Floats.PrimFloat.
From stdpp Require Import gmap strings list fin_maps.

(* ===================================================================== *)
(** * Part I: the program                                                 *)
(* ===================================================================== *)

Module golang.

(** ** int64 *)

(** An [int64] is a [Z] in [[-2^63, 2^63)]; [+] wraps around. *)
Definition in_int64 (z : Z) : Prop := (- 2 ^ 63 <= z < 2 ^ 63)%Z.

Definition wrap64 (z : Z) : Z := ((z + 2 ^ 63) `mod` 2 ^ 64 - 2 ^ 63)%Z.

Definition add64 (a b : Z) : Z := wrap64 (a + b).

(** ** error values *)

(** The errors the modelled code can see.  [ErrFmt format arg] is the value
    of [fmt.Errorf(format, arg)]. *)
Inductive err : Type :=
| ErrNotExist
| ErrOS (msg : string)
| ErrJSON (msg : string)
| ErrNet (msg : string)
| ErrFmt (format : string) (arg : Z).

(** A Go [error]: [None] is [nil]. *)
Definition error : Type := option err.

(** [errors.Is(e, os.ErrNotExist)]. *)
Definition is_not_exist (e : err) : bool :=
  match e with
  | ErrNotExist => true
  | _ => false
  end.

(** ** files *)

(** A path names nothing, a regular file with its bytes, or something
    that cannot be read or written (a directory, a file without
    permission), with the error the operating system reports for it. *)
Inductive node : Type :=
| RegularFile (data : string)
| Blocked (e : err).

Abbreviation FS := (gmap string node).

Definition os_ReadFile (filename : string) (fs : FS) : string + err :=
  match fs !! filename with
  | None => inr ErrNotExist
  | Some (RegularFile data) => inl data
  | Some (Blocked e) => inr e
  end.

Definition os_WriteFile (filename data : string) (fs : FS) : FS * error :=
  match fs !! filename with
  | Some (Blocked e) => (fs, Some e)
  | _ => (<[filename := RegularFile data]> fs, None)
  end.

(** ** range over a map *)

(** [for k, v := range m] visits every entry of [m] once, in an order the
    language leaves unspecified. *)
Class MapRange : Type := {
  map_range : ∀ V : Type, gmap string V → list (string * V);
  map_range_perm : ∀ (V : Type) (m : gmap string V),
    map_range V m ≡ₚ map_to_list m
}.
Arguments map_range {_ _} _.

(** [io.LimitReader(r, n)] followed by reading to the end: at most the
    first [n] bytes. *)
Fixpoint LimitReader (body : string) (n : Z) : string :=
  match body with
  | EmptyString => EmptyString
  | String c rest =>
      if (n <=? 0)%Z then EmptyString else String c (LimitReader rest (n - 1))
  end.

End golang.

Module models.

(** Modelled from the spec: the record type [models.Metrics], whose
    declaration is not among the sources.  The spec gives the shape
    [{id: string, type: "gauge"|"counter", value?: number, delta?:
    integer}]; the code reads [ID], [MType], and the pointers [Value]
    ([*float64]) and [Delta] ([*int64]), [nil] being [None]. *)
Record Metrics : Type := {
  ID : string;
  MType : string;
  Delta : option Z;
  Value : option float
}.

(** Modelled from the spec: the constants [models.Gauge] and
    [models.Counter], declared with the record; they are the two kind tags
    the code compares [MType] with. *)
Definition Gauge : string := "gauge".
Definition Counter : string := "counter".

End models.

Module repository.
Import golang models.

(** [encoding/json] on [[]models.Metrics]: [json.MarshalIndent] and
    [json.Unmarshal] (also used by [json.Decoder.Decode]).  The library
    is not part of the repository; the code is verified against its
    interface. *)
Class JSON : Type := {
  json_MarshalIndent : list Metrics → string + err;
  json_Unmarshal : string → list Metrics + err
}.

Record MemStorage : Type := {
  gauges : gmap string float;
  counters : gmap string Z
}.

Definition NewMemStorage : MemStorage :=
  {| gauges := ∅; counters := ∅ |}.

(** [s.gauges[name] = value] *)
Definition UpdateGauge (s : MemStorage) (name : string) (value : float)
  : MemStorage :=
  {| gauges := <[name := value]> (gauges s); counters := counters s |}.

(** [s.counters[name] += value]: a missing key reads as [0]. *)
Definition UpdateCounter (s : MemStorage) (name : string) (value : Z)
  : MemStorage :=
  {| gauges := gauges s;
     counters :=
       <[name := add64 (default 0%Z (counters s !! name)) value]> (counters s) |}.

(** [val, ok := s.gauges[name]] *)
Definition GetGauge (s : MemStorage) (name : string) : float * bool :=
  match gauges s !! name with
  | Some val => (val, true)
  | None => (0%float, false)
  end.

Definition GetCounter (s : MemStorage) (name : string) : Z * bool :=
  match counters s !! name with
  | Some val => (val, true)
  | None => (0%Z, false)
  end.

(** The copies are maps with the same entries. *)
Definition GetAllMetrics (s : MemStorage) : gmap string float * gmap string Z :=
  (gauges s, counters s).

(** One iteration of the loop of [UpdateBatch]. *)
Definition UpdateBatch_body (s : MemStorage) (met : Metrics) : MemStorage :=
  if (MType met =? "gauge")%string then
    match Value met with
    | None => s
    | Some v => {| gauges := <[ID met := v]> (gauges s); counters := counters s |}
    end
  else if (MType met =? "counter")%string then
    match Delta met with
    | None => s
    | Some d =>
        {| gauges := gauges s;
           counters :=
             <[ID met := add64 (default 0%Z (counters s !! ID met)) d]> (counters s) |}
    end
  else s.

Fixpoint UpdateBatch_loop (s : MemStorage) (batch : list Metrics) : MemStorage :=
  match batch with
  | [] => s
  | met :: rest => UpdateBatch_loop (UpdateBatch_body s met) rest
  end.

Definition UpdateBatch (s : MemStorage) (batch : list Metrics)
  : MemStorage * error :=
  (UpdateBatch_loop s batch, None).

Definition gauge_record (kv : string * float) : Metrics :=
  {| ID := kv.1; MType := "gauge"; Delta := None; Value := Some kv.2 |}.

Definition counter_record (kv : string * Z) : Metrics :=
  {| ID := kv.1; MType := "counter"; Delta := Some kv.2; Value := None |}.

(** The record list [SaveToFile] builds with its two [append] loops. *)
Definition snapshot_records `{order : MapRange} (s : MemStorage) : list Metrics :=
  let metrics := [] in
  let metrics :=
    fold_left (λ acc kv, acc ++ [gauge_record kv]) (map_range (gauges s)) metrics in
  let metrics :=
    fold_left (λ acc kv, acc ++ [counter_record kv]) (map_range (counters s)) metrics in
  metrics.

(** The indentation arguments of [json.MarshalIndent] and the permission
    bits of [os.WriteFile] do not matter to what is read back and are left
    out. *)
Definition SaveToFile `{order : MapRange} `{codec : JSON} (s : MemStorage)
    (filename : string) (fs : FS) : FS * error :=
  match json_MarshalIndent (snapshot_records s) with
  | inr e => (fs, Some e)
  | inl data => os_WriteFile filename data fs
  end.

(** One iteration of the loop of [LoadFromFile]. *)
Definition LoadFromFile_body (s : MemStorage) (mtr : Metrics) : MemStorage :=
  if (MType mtr =? "gauge")%string then
    match Value mtr with
    | Some v => {| gauges := <[ID mtr := v]> (gauges s); counters := counters s |}
    | None => s
    end
  else if (MType mtr =? "counter")%string then
    match Delta mtr with
    | Some d => {| gauges := gauges s; counters := <[ID mtr := d]> (counters s) |}
    | None => s
    end
  else s.

Definition LoadFromFile `{codec : JSON} (s : MemStorage) (filename : string) (fs : FS)
  : MemStorage * error :=
  match os_ReadFile filename fs with
  | inr e => if is_not_exist e then (s, None) else (s, Some e)
  | inl data =>
      match json_Unmarshal data with
      | inr e => (s, Some e)
      | inl metrics => (fold_left LoadFromFile_body metrics s, None)
      end
  end.

End repository.

Module audit.
Import golang.

Record Event : Type := {
  TS : Z;
  Metrics : list string;
  IPAddress : string
}.

(** A [time.Time], of which the code reads [Unix()] only. *)
Record Time : Type := { Unix : Z }.

Section Sinks.
(** The state of what sinks act on: files, the network, a test's
    channel. *)
Context (W : Type).

(** [type Sink interface { Send(ctx, ev) error }] *)
Record Sink : Type := { Send : Event → W → W * error }.

Record Auditor : Type := { sinks : list Sink }.

(** A [*Auditor]; [None] is the nil pointer. *)
Definition New (ss : list Sink) : option Auditor :=
  Some {| sinks := ss |}.

Definition Enabled (a : option Auditor) : bool :=
  match a with
  | None => false
  | Some a' => (0 <? length (sinks a'))%nat
  end.

(** [for _, s := range a.sinks { _ = s.Send(ctx, ev) }] *)
Fixpoint Notify_loop (ss : list Sink) (ev : Event) (w : W) : W :=
  match ss with
  | [] => w
  | s :: rest => let '(w', _) := Send s ev w in Notify_loop rest ev w'
  end.

(** [now] is the injected clock; reading it is an effect on [W]. *)
Definition Notify (a : option Auditor) (metrics : list string) (ip : string)
    (now : W → Time * W) (w : W) : W :=
  if negb (Enabled a) then w
  else
    match a with
    | None => w
    | Some a' =>
        let '(t, w1) := now w in
        let ev := {| TS := Unix t; Metrics := metrics; IPAddress := ip |} in
        Notify_loop (sinks a') ev w1
    end.

(** *** http_sink.go *)

Record Request : Type := {
  Method : string;
  URL : string;
  ContentType : string;
  Payload : string
}.

Record Response : Type := { StatusCode : Z }.

(** What [HTTPSink.Send] calls outside the repository: [json.Marshal] on
    an event, [http.NewRequestWithContext] (method, url, body) and
    [http.Client.Do]. *)
Class HTTP : Type := {
  json_Marshal : Event → string + err;
  http_NewRequestWithContext : string → string → string → Request + err;
  client_Do : Request → W → (Response + err) * W
}.

(** [req.Header.Set("Content-Type", v)] *)
Definition Header_Set_ContentType (req : Request) (v : string) : Request :=
  {| Method := Method req; URL := URL req; ContentType := v;
     Payload := Payload req |}.

Record HTTPSink : Type := { url : string }.

Definition NewHTTPSink (u : string) : HTTPSink := {| url := u |}.

Definition HTTPSink_Send `{net : HTTP} (s : HTTPSink) (ev : Event) (w : W)
  : W * error :=
  match json_Marshal ev with
  | inr e => (w, Some e)
  | inl b =>
      match http_NewRequestWithContext "POST" (url s) b with
      | inr e => (w, Some e)
      | inl req =>
          let req := Header_Set_ContentType req "application/json" in
          match client_Do req w with
          | (inr e, w') => (w', Some e)
          | (inl resp, w') =>
              if (300 <=? StatusCode resp)%Z
              then (w', Some (ErrFmt "audit sink HTTP status %d" (StatusCode resp)))
              else (w', None)
          end
      end
  end.

Definition HTTPSink_Sink `{net : HTTP} (s : HTTPSink) : Sink :=
  {| Send := HTTPSink_Send s |}.

End Sinks.

Arguments Send {W} _ _ _.
Arguments sinks {W} _.
Arguments New {W} _.
Arguments Enabled {W} _.
Arguments Notify_loop {W} _ _ _.
Arguments Notify {W} _ _ _ _ _.
Arguments json_Marshal {W _} _.
Arguments http_NewRequestWithContext {W _} _ _ _.
Arguments client_Do {W _} _ _.
Arguments HTTPSink_Send {W _} _ _ _.
Arguments HTTPSink_Sink {W _} _.

End audit.

Module handler.
Import golang audit models.

(** [repository.Storage], with the optional [repository.BatchUpdater]:
    [BatchUpdater] is [Some] exactly when the type assertion
    [storage.(repository.BatchUpdater)] succeeds. *)
Class Storage (S : Type) : Type := {
  UpdateGauge : S → string → float → S;
  UpdateCounter : S → string → Z → S;
  GetGauge : S → string → float * bool;
  GetCounter : S → string → Z * bool;
  GetAllMetrics : S → gmap string float * gmap string Z;
  BatchUpdater : option (S → list Metrics → S * error)
}.

#[global] Instance MemStorage_Storage : Storage repository.MemStorage := {|
  UpdateGauge := repository.UpdateGauge;
  UpdateCounter := repository.UpdateCounter;
  GetGauge := repository.GetGauge;
  GetCounter := repository.GetCounter;
  GetAllMetrics := repository.GetAllMetrics;
  BatchUpdater := Some repository.UpdateBatch
|}.

(** [json.NewDecoder(r).Decode(&batch)] on the bytes read. *)
Class Decoder : Type := { json_Decode : string → list Metrics + err }.

(** What the handler reads of the [*http.Request]: the [Content-Type]
    header ([""] when absent), the body, and the string [ClientIP(r)]
    derives from the request's headers and remote address, which the
    handler only passes on. *)
Record Request : Type := {
  ContentType : string;
  Body : string;
  ClientIP : string
}.

Inductive Reply : Type :=
| Error (msg : string) (code : Z)
| SignedJSON (status : string) (key : string).

(** The status code a reply carries: [http.Error] writes its [code];
    [WriteSignedJSONResponse] answers 200, as the handler documents. *)
Definition status_of (r : Reply) : Z :=
  match r with
  | Error _ code => code
  | SignedJSON _ _ => 200
  end.

Section UpdatesHandler.
Context {S : Type} `{store : Storage S} `{dec : Decoder} {W : Type}.

(** The per-item fallback loop; [Some reply] is the early return. *)
Fixpoint fallback (storage : S) (batch : list Metrics) : S * option Reply :=
  match batch with
  | [] => (storage, None)
  | m :: rest =>
      if (MType m =? "gauge")%string then
        match Value m with
        | None => (storage, Some (Error "gauge without value" 400))
        | Some v => fallback (UpdateGauge storage (ID m) v) rest
        end
      else if (MType m =? "counter")%string then
        match Delta m with
        | None => (storage, Some (Error "counter without delta" 400))
        | Some d => fallback (UpdateCounter storage (ID m) d) rest
        end
      else (storage, Some (Error "unknown mtype" 400))
  end.

Definition apply_batch (storage : S) (batch : list Metrics) : S * option Reply :=
  match BatchUpdater with
  | Some UpdateBatch =>
      match UpdateBatch storage batch with
      | (storage', Some _) => (storage', Some (Error "storage error" 500))
      | (storage', None) => (storage', None)
      end
  | None => fallback storage batch
  end.

(** [names = append(names, m.ID)] over the batch. *)
Definition collect_names (batch : list Metrics) : list string :=
  fold_left (λ names m, names ++ [ID m]) batch [].

(** [time_Now] is [time.Now]. *)
Definition UpdatesHandler (storage : S) (key : string)
    (aud : option (Auditor W)) (time_Now : W → Time * W)
    (r : Request) (w : W) : Reply * S * W :=
  let ct := ContentType r in
  if negb (ct =? "")%string && negb (ct =? "application/json")%string then
    (Error "Content-Type must be application/json" 415, storage, w)
  else
    let limited := LimitReader (Body r) (10 * 2 ^ 20) in
    match json_Decode limited with
    | inr _ => (Error "bad json" 400, storage, w)
    | inl batch =>
        if (length batch =? 0)%nat then (Error "empty batch" 400, storage, w)
        else
          match apply_batch storage batch with
          | (storage', Some reply) => (reply, storage', w)
          | (storage', None) =>
              let names := collect_names batch in
              let w' :=
                if bool_decide (aud ≠ None) && Enabled aud
                then Notify aud names (ClientIP r) time_Now w
                else w in
              (SignedJSON "ok" key, storage', w')
          end
    end.

End UpdatesHandler.

End handler.

(** The test double of the server's tests: a sink that offers the event to
    a channel of capacity 8 without blocking and reports no error.  The
    world is the channel's buffer. *)
Module server_test.
Import golang audit.

Definition memSink : Sink (list Event) :=
  {| Send := λ ev ch,
       if (length ch <? 8)%nat then (ch ++ [ev], None) else (ch, None) |}.

Definition newTestAuditor : option (Auditor (list Event)) := New [memSink].

End server_test.

(** Small concrete instances of the interfaces, for the examples. *)
Module fixtures.
Import golang models repository.

(** Ranging in the order [map_to_list] lists the entries. *)
Definition listed_order : MapRange :=
  {| map_range := λ V m, map_to_list m;
     map_range_perm := λ V m, reflexivity (map_to_list m) |}.

(** A codec that knows one document: it writes [data] and reads [data]
    back as [ms]; any other text is a syntax error. *)
Definition one_document (data : string) (ms : list Metrics) : JSON :=
  {| json_MarshalIndent := λ _, inl data;
     json_Unmarshal := λ d,
       if (d =? data)%string then inl ms
       else inr (ErrJSON "invalid character") |}.

(** A decoder that knows one request body. *)
Definition one_body (body : string) (batch : list Metrics) : handler.Decoder :=
  {| handler.json_Decode := λ d,
       if (d =? body)%string then inl batch
       else inr (ErrJSON "invalid character") |}.

(** A world that counts the readings of its clock and logs what each sink
    receives; [probe i e] is sink number [i], which answers [e]. *)
Definition probe (i : nat) (e : error) : audit.Sink (nat * list (nat * audit.Event)) :=
  {| audit.Send := λ ev w, ((w.1, w.2 ++ [(i, ev)]), e) |}.

Definition ticking_clock (w : nat * list (nat * audit.Event))
  : audit.Time * (nat * list (nat * audit.Event)) :=
  ({| audit.Unix := Z.of_nat w.1 |}, (S w.1, w.2)).

(** A clock that stands still. *)
Definition fixed_clock {W : Type} (t : Z) (w : W) : audit.Time * W :=
  ({| audit.Unix := t |}, w).

(** A network whose server answers every request with status [code]. *)
Definition answering (code : Z) : audit.HTTP unit :=
  {| audit.json_Marshal := λ _, inl "{}";
     audit.http_NewRequestWithContext := λ method u body,
       inl {| audit.Method := method; audit.URL := u;
              audit.ContentType := ""; audit.Payload := body |};
     audit.client_Do := λ _ w, (inl {| audit.StatusCode := code |}, w) |}.

(** JSON text written with ' for the double quote. *)
Fixpoint js (text : string) : string :=
  match text with
  | EmptyString => EmptyString
  | String c rest =>
      String (if Ascii.eqb c (Ascii.ascii_of_nat 39) then Ascii.ascii_of_nat 34 else c)
             (js rest)
  end.

End fixtures.

(** What the specification says, in its own words, where a theorem compares
    the code with it. *)
Module spec.
Import golang models repository.

(** The numeric field an entry's declared kind requires, when the entry
    carries it: a gauge's value or a counter's delta. *)
Definition required_field (met : Metrics) : option (float + Z) :=
  if decide (MType met = "gauge") then inl <$> Value met
  else if decide (MType met = "counter") then inr <$> Delta met
  else None.

(** An entry with its required field acts as the single point call; any
    other entry is skipped. *)
Definition apply_entry (s : MemStorage) (met : Metrics) : MemStorage :=
  match required_field met with
  | Some (inl v) => UpdateGauge s (ID met) v
  | Some (inr d) => UpdateCounter s (ID met) d
  | None => s
  end.

(** A sequence of [UpdateGauge] calls, oldest first. *)
Definition set_gauges (s : MemStorage) (calls : list (string * float))
  : MemStorage :=
  fold_left (λ st c, UpdateGauge st c.1 c.2) calls s.

(** The most recent call for [name], if there is one. *)
Definition most_recent (name : string) (calls : list (string * float))
  : option (string * float) :=
  last (filter (λ c, c.1 = name) calls).

Definition counter_entry (name : string) (d : Z) : Metrics :=
  {| ID := name; MType := Counter; Delta := Some d; Value := None |}.

Definition gauge_entry (name : string) (v : float) : Metrics :=
  {| ID := name; MType := Gauge; Delta := None; Value := Some v |}.

(** The names of the entries of a batch that change the storage: those
    that carry the field their kind requires. *)
Definition updated_names (batch : list Metrics) : list string :=
  ID <$> filter (λ met, is_Some (required_field met)) batch.

(** Every sink of the list is sent the event once, in the order of the
    list; the error a sink returns is dropped. *)
Inductive Delivers {W : Type} (ev : audit.Event)
  : list (audit.Sink W) → W → W → Prop :=
| Delivers_nil w : Delivers ev [] w w
| Delivers_cons s rest w w1 e w2 :
    audit.Send s ev w = (w1, e) →
    Delivers ev rest w1 w2 →
    Delivers ev (s :: rest) w w2.

(** The sentence of the specification on the network sink, read literally:
    once a response has arrived, [Send] returns nil exactly for the 2xx and
    3xx statuses. *)
Definition nil_iff_2xx_or_3xx : Prop :=
  ∀ (W : Type) (net : audit.HTTP W) (s : audit.HTTPSink) (ev : audit.Event)
    (w w' : W) (body : string) (req : audit.Request) (resp : audit.Response),
    audit.json_Marshal ev = inl body →
    audit.http_NewRequestWithContext "POST" (audit.url s) body = inl req →
    audit.client_Do (audit.Header_Set_ContentType req "application/json") w
      = (inl resp, w') →
    ((audit.HTTPSink_Send s ev w).2 = None
     ↔ (200 ≤ audit.StatusCode resp < 400)%Z).

(** Assigning the entries of a list one after the other: what a loop of
    [m[k] = v] does to a map. *)
Definition assign_all {V : Type} (l : list (string * V)) (m : gmap string V)
  : gmap string V :=
  fold_left (λ acc kv, <[kv.1 := kv.2]> acc) l m.

(** The sentence of the specification on loading counters, read literally:
    every counter record of the file ends up stored with its delta. *)
Definition every_counter_record_stored : Prop :=
  ∀ (codec : JSON) (s : MemStorage) (filename data : string) (fs : FS)
    (metrics : list Metrics) (r : Metrics) (d : Z),
    fs !! filename = Some (RegularFile data) →
    json_Unmarshal data = inl metrics →
    r ∈ metrics → MType r = "counter" → Delta r = Some d →
    counters (LoadFromFile s filename fs).1 !! ID r = Some d.

End spec.

(** [PeriodicStore], the saving loop of the repository package. *)
Module repository_periodic.
Import golang models repository.

(** [for range ticker.C { _ = s.SaveToFile(filename) }].  The loop has no
    exit; [ticks] lists the storage as it stands when each tick of a finite
    run arrives (handlers change it between ticks), and the result is the
    file table after these ticks.  The error of every save is discarded. *)
Fixpoint PeriodicStore `{order : MapRange} `{codec : JSON} (filename : string)
    (ticks : list MemStorage) (fs : FS) : FS :=
  match ticks with
  | [] => fs
  | s :: later =>
      let '(fs', _) := SaveToFile s filename fs in
      PeriodicStore filename later fs'
  end.

End repository_periodic.

(** The file sink of the audit package. *)
Module audit_file.
Import golang audit.

(** [json.Marshal] on an event. *)
Class Encoder : Type := { json_Marshal : Event → string + err }.

Definition newline : string := String (Ascii.ascii_of_nat 10) EmptyString.

(** [os.OpenFile(path, O_CREATE|O_WRONLY|O_APPEND, 0o644)]: an absent file
    is created empty; the handle is the path. *)
Definition os_OpenFile_append (filename : string) (fs : FS) : FS * error :=
  match fs !! filename with
  | None => (<[filename := RegularFile ""]> fs, None)
  | Some (RegularFile _) => (fs, None)
  | Some (Blocked e) => (fs, Some e)
  end.

(** [f.Write(data)] on a file opened for appending. *)
Definition File_Write (filename data : string) (fs : FS) : FS * error :=
  match fs !! filename with
  | Some (RegularFile old) =>
      (<[filename := RegularFile (old ++ data)%string]> fs, None)
  | Some (Blocked e) => (fs, Some e)
  | None => (fs, Some ErrNotExist)
  end.

Record FileSink : Type := { path : string }.

Definition NewFileSink (p : string) : FileSink := {| path := p |}.

Definition FileSink_Send `{enc : Encoder} (s : FileSink) (ev : Event) (fs : FS)
  : FS * error :=
  match json_Marshal ev with
  | inr e => (fs, Some e)
  | inl b =>
      match os_OpenFile_append (path s) fs with
      | (fs1, Some e) => (fs1, Some e)
      | (fs1, None) => File_Write (path s) (b ++ newline)%string fs1
      end
  end.

Definition FileSink_Sink `{enc : Encoder} (s : FileSink) : Sink FS :=
  {| Send := FileSink_Send s |}.

End audit_file.

(** The gzip response writer of the server (package main). *)
Module server.

(** [http.Header]: each key holds a list of values. *)
Abbreviation Headers := (gmap string (list string)).

Definition Header_Set (k v : string) (h : Headers) : Headers :=
  <[k := [v]]> h.

Definition Header_Add (k v : string) (h : Headers) : Headers :=
  <[k := default [] (h !! k) ++ [v]]> h.

(** The wrapped [http.ResponseWriter] is its header map and the status
    codes its [WriteHeader] has been called with; the [gzip.Writer] is the
    chunks it has been given to compress. *)
Record gzipResponseWriter : Type := {
  Header : Headers;
  statuses : list Z;
  compressed : list string;
  wroteHeaders : bool
}.

Definition WriteHeader (w : gzipResponseWriter) (code : Z) : gzipResponseWriter :=
  let w1 :=
    if negb (wroteHeaders w) then
      {| Header := Header_Add "Vary" "Accept-Encoding"
                     (Header_Set "Content-Encoding" "gzip" (Header w));
         statuses := statuses w;
         compressed := compressed w;
         wroteHeaders := true |}
    else w in
  {| Header := Header w1;
     statuses := statuses w1 ++ [code];
     compressed := compressed w1;
     wroteHeaders := wroteHeaders w1 |}.

Definition Write (w : gzipResponseWriter) (b : string) : gzipResponseWriter :=
  let w1 := if negb (wroteHeaders w) then WriteHeader w 200 else w in
  {| Header := Header w1;
     statuses := statuses w1;
     compressed := compressed w1 ++ [b];
     wroteHeaders := wroteHeaders w1 |}.

(** What a handler does to the writer it is given. *)
Inductive call : Type :=
| CallWriteHeader (code : Z)
| CallWrite (b : string).

Definition perform (w : gzipResponseWriter) (c : call) : gzipResponseWriter :=
  match c with
  | CallWriteHeader code => WriteHeader w code
  | CallWrite b => Write w b
  end.

(** The writer [gzipResponseMiddleware] builds around a response whose
    headers are [h]. *)
Definition wrap (h : Headers) : gzipResponseWriter :=
  {| Header := h; statuses := []; compressed := []; wroteHeaders := false |}.

(** A handler's calls, in order. *)
Definition run (w : gzipResponseWriter) (calls : list call) : gzipResponseWriter :=
  fold_left perform calls w.

(** The status codes a handler passes to [WriteHeader], and the chunks it
    passes to [Write]. *)
Definition codes_of (calls : list call) : list Z :=
  omap (λ c, match c with CallWriteHeader code => Some code | _ => None end) calls.

Definition chunks_of (calls : list call) : list string :=
  omap (λ c, match c with CallWrite b => Some b | _ => None end) calls.

End server.

(** Notions the further theorems are stated with. *)
Module facts.
Import golang models repository.

(** The deltas a list of records carries for the counter [name], in order. *)
Definition deltas_for (name : string) (batch : list Metrics) : list Z :=
  omap (λ met,
          if decide (MType met = "counter" ∧ ID met = name) then Delta met
          else None) batch.

(** The values a list of records carries for the gauge [name], in order. *)
Definition values_for (name : string) (batch : list Metrics) : list float :=
  omap (λ met,
          if decide (MType met = "gauge" ∧ ID met = name) then Value met
          else None) batch.

Definition sumZ (l : list Z) : Z := foldr Z.add 0%Z l.

(** An entry the per-item path of the handler accepts. *)
Definition valid (met : Metrics) : Prop := is_Some (spec.required_field met).

(** The text of the 400 reply the per-item path gives for an entry. *)
Definition rejection (met : Metrics) : string :=
  if decide (MType met = "gauge") then "gauge without value"
  else if decide (MType met = "counter") then "counter without delta"
  else "unknown mtype".

(** One accepted entry, through the point methods of a storage. *)
Definition point_update {S : Type} `{store : handler.Storage S}
    (storage : S) (met : Metrics) : S :=
  match spec.required_field met with
  | Some (inl v) => handler.UpdateGauge storage (ID met) v
  | Some (inr d) => handler.UpdateCounter storage (ID met) d
  | None => storage
  end.

(** [MemStorage] seen through [repository.Storage] alone, as a value
    whose type has no [UpdateBatch]. *)
Definition point_only : handler.Storage MemStorage :=
  {| handler.UpdateGauge := UpdateGauge;
     handler.UpdateCounter := UpdateCounter;
     handler.GetGauge := GetGauge;
     handler.GetCounter := GetCounter;
     handler.GetAllMetrics := GetAllMetrics;
     handler.BatchUpdater := None |}.

(** The encodings of the storages a run of ticks could encode. *)
Definition encoded `{order : MapRange} `{codec : JSON} (ticks : list MemStorage)
  : list string :=
  omap (λ s, match json_MarshalIndent (snapshot_records s) with
             | inl data => Some data
             | inr _ => None
             end) ticks.

(** What a path holds, read as text: nothing when there is no regular file. *)
Definition content (fs : FS) (filename : string) : string :=
  match fs !! filename with
  | Some (RegularFile data) => data
  | _ => ""
  end.

(** The lines a file sink writes for a list of events: one per event that
    can be encoded. *)
Definition lines `{enc : audit_file.Encoder} (evs : list audit.Event) : string :=
  foldr (λ ev (acc : string),
           match audit_file.json_Marshal ev with
           | inl b => (b ++ audit_file.newline ++ acc)%string
           | inr _ => acc
           end) "" evs.



Definition name_uFFFD : string :=
  String (Ascii.ascii_of_nat 239)
    (String (Ascii.ascii_of_nat 191)
       (String (Ascii.ascii_of_nat 189) EmptyString)).

(** What [encoding/json] does with the one gauge [name_xFF := 1.5]: when it
    encodes a string it writes U+FFFD for bytes that are not valid UTF-8,
    so the text it produces, [coerced_text], names the gauge [name_uFFFD],
    and that is the record it reads back. *)
Definition coerced_text : string :=
  (fixtures.js "[{'id':'" ++ name_uFFFD
     ++ fixtures.js "','type':'gauge','value':1.5}]")%string.

Definition coercing_codec : JSON :=
  fixtures.one_document coerced_text [gauge_record (name_uFFFD, 1.5%float)].

(** An encoder for the examples: the event's address as its text. *)
Definition address_encoder : audit_file.Encoder :=
  {| audit_file.json_Marshal := λ ev,
       if (audit.IPAddress ev =? "")%string then inr (ErrJSON "unsupported value")
       else inl (audit.IPAddress ev) |}.

(** A sink is sent the events of a list one after the other; what it
    returns is dropped, as [Notify] does. *)
Definition deliver_each {W : Type} (sink : audit.Sink W) (evs : list audit.Event)
    (w : W) : W :=
  fold_left (λ w ev, (audit.Send sink ev w).1) evs w.

End facts.

(* ===================================================================== *)
(** * Part II: the theorems                                               *)
(* ===================================================================== *)

Import golang models repository.

(** ** int64 arithmetic *)

Lemma wrap64_in_range z : in_int64 z → wrap64 z = z.
Proof.
  unfold in_int64, wrap64. intros Hz.
  rewrite Z.mod_small; lia.
Qed.

Lemma wrap64_bounds z : in_int64 (wrap64 z).
Proof.
  unfold in_int64, wrap64.
  pose proof (Z.mod_pos_bound (z + 2 ^ 63) (2 ^ 64)) as Hb. lia.
Qed.

Lemma add64_wrap_l a b : add64 (wrap64 a) b = add64 a b.
Proof.
  unfold add64, wrap64. f_equal.
  replace ((a + 2 ^ 63) `mod` 2 ^ 64 - 2 ^ 63 + b + 2 ^ 63)%Z
    with ((a + 2 ^ 63) `mod` 2 ^ 64 + b)%Z by lia.
  rewrite Zplus_mod_idemp_l. f_equal. lia.
Qed.

Lemma add64_comm a b : add64 a b = add64 b a.
Proof. unfold add64. by rewrite Z.add_comm. Qed.

Lemma add64_0_l a : add64 0 a = wrap64 a.
Proof. unfold add64. by rewrite Z.add_0_l. Qed.

(** ** the batch loop *)

Lemma UpdateBatch_loop_fold s batch :
  UpdateBatch_loop s batch = fold_left UpdateBatch_body batch s.
Proof. revert s. induction batch as [|met rest IH]; intros s; simpl; auto. Qed.

Lemma UpdateBatch_loop_app s l1 l2 :
  UpdateBatch_loop s (l1 ++ l2) = UpdateBatch_loop (UpdateBatch_loop s l1) l2.
Proof. revert s. induction l1 as [|met rest IH]; intros s; simpl; auto. Qed.

Lemma String_eqb_decide (a b : string) :
  (a =? b)%string = bool_decide (a = b).
Proof.
  destruct (String.eqb_spec a b) as [->|Hne].
  - by rewrite bool_decide_eq_true_2.
  - by rewrite bool_decide_eq_false_2.
Qed.

Lemma UpdateBatch_body_spec s met :
  UpdateBatch_body s met = spec.apply_entry s met.
Proof.
  unfold UpdateBatch_body, spec.apply_entry, spec.required_field.
  rewrite !String_eqb_decide.
  repeat case_decide; repeat case_bool_decide; try congruence.
  all: try destruct (Value met); try destruct (Delta met); reflexivity.
Qed.

Lemma UpdateBatch_body_missing s met :
  (MType met = "gauge" ∧ Value met = None) ∨
  (MType met = "counter" ∧ Delta met = None) →
  UpdateBatch_body s met = s.
Proof.
  unfold UpdateBatch_body. intros [[Hk Hv] | [Hk Hd]]; rewrite Hk; simpl.
  - by rewrite Hv.
  - by rewrite Hd.
Qed.

Lemma required_field_gauge met :
  MType met = "gauge" → spec.required_field met = inl <$> Value met.
Proof. intros Hk. unfold spec.required_field. by rewrite decide_True. Qed.

Lemma required_field_counter met :
  MType met = "counter" → spec.required_field met = inr <$> Delta met.
Proof.
  intros Hk. unfold spec.required_field.
  rewrite decide_False by (rewrite Hk; discriminate). by rewrite decide_True.
Qed.

Lemma required_field_unknown met :
  MType met ≠ "gauge" → MType met ≠ "counter" → spec.required_field met = None.
Proof.
  intros Hg Hc. unfold spec.required_field. by rewrite !decide_False.
Qed.

Lemma UpdateBatch_body_unknown s met :
  MType met ≠ "gauge" → MType met ≠ "counter" → UpdateBatch_body s met = s.
Proof.
  intros Hg Hc. unfold UpdateBatch_body.
  rewrite !String_eqb_decide, !bool_decide_eq_false_2; auto.
Qed.

(** C1.  [UpdateBatch] reports no error and leaves the storage in the state
    reached by going through the batch in order, where an entry that
    carries the field its kind requires (Value for "gauge", Delta for
    "counter") acts exactly as the single call [UpdateGauge] /
    [UpdateCounter], and every other entry leaves the state as it is. *)
Theorem UpdateBatch_applies_entries_in_order (s : MemStorage) (batch : list Metrics) :
  UpdateBatch s batch = (fold_left spec.apply_entry batch s, None).
Proof.
  unfold UpdateBatch. f_equal.
  revert s. induction batch as [|met rest IH]; intros s; simpl.
  - reflexivity.
  - rewrite IH. by rewrite UpdateBatch_body_spec.
Qed.

(** C10.  [UpdateBatch] returns a nil error for every batch, and an entry
    whose kind is neither "gauge" nor "counter" can be removed from the
    batch without changing the outcome: it is skipped and the state is not
    touched, which is also what happens to a gauge entry without a value
    and to a counter entry without a delta. *)
Theorem UpdateBatch_never_fails :
  (∀ s batch, (UpdateBatch s batch).2 = None) ∧
  (∀ s l1 met l2,
      MType met ≠ "gauge" → MType met ≠ "counter" →
      UpdateBatch s (l1 ++ met :: l2) = UpdateBatch s (l1 ++ l2)) ∧
  (∀ s l1 met l2,
      (MType met = "gauge" ∧ Value met = None) ∨
      (MType met = "counter" ∧ Delta met = None) →
      UpdateBatch s (l1 ++ met :: l2) = UpdateBatch s (l1 ++ l2)).
Proof.
  split; [reflexivity |].
  split; intros s l1 met l2.
  - intros Hg Hc. unfold UpdateBatch. f_equal.
    rewrite !UpdateBatch_loop_app. simpl.
    by rewrite UpdateBatch_body_unknown.
  - intros Hmissing. unfold UpdateBatch. f_equal.
    rewrite !UpdateBatch_loop_app. simpl.
    by rewrite UpdateBatch_body_missing.
Qed.

Lemma UpdateBatch_never_fails_witness :
  UpdateBatch NewMemStorage
    [spec.gauge_entry "g1" 1.5;
     {| ID := "h1"; MType := "histogram"; Delta := Some 1%Z; Value := Some 2%float |};
     spec.counter_entry "c1" 5]
  = UpdateBatch NewMemStorage [spec.gauge_entry "g1" 1.5; spec.counter_entry "c1" 5].
Proof.
  apply (proj1 (proj2 UpdateBatch_never_fails) NewMemStorage [spec.gauge_entry "g1" 1.5]
           {| ID := "h1"; MType := "histogram"; Delta := Some 1%Z; Value := Some 2%float |}
           [spec.counter_entry "c1" 5]); simpl; discriminate.
Defined.

(** The scenario of the specification: one gauge and one counter in a
    batch, then a full read. *)
Example UpdateBatch_then_GetAllMetrics :
  GetAllMetrics
    (UpdateBatch NewMemStorage
       [spec.gauge_entry "g1" 1.25; spec.counter_entry "c1" 5]).1
  = ({[ "g1" := 1.25%float ]}, {[ "c1" := 5%Z ]}).
Proof. reflexivity. Qed.

(** An entry without its required field, between two valid ones. *)
Example UpdateBatch_skips_missing_field :
  UpdateBatch NewMemStorage
    [spec.counter_entry "c1" 5;
     {| ID := "c1"; MType := Counter; Delta := None; Value := Some 9%float |};
     spec.counter_entry "c1" 3]
  = (UpdateCounter (UpdateCounter NewMemStorage "c1" 5) "c1" 3, None).
Proof. reflexivity. Qed.

(** ** counters accumulate *)

Lemma GetCounter_UpdateCounter s name d :
  GetCounter (UpdateCounter s name d) name =
    (add64 (default 0%Z (counters s !! name)) d, true).
Proof. unfold GetCounter, UpdateCounter. simpl. by rewrite lookup_insert_eq. Qed.

Lemma counters_UpdateCounter_eq s name d :
  counters (UpdateCounter s name d) !! name =
    Some (add64 (default 0%Z (counters s !! name)) d).
Proof. unfold UpdateCounter. simpl. by rewrite lookup_insert_eq. Qed.

Lemma UpdateCounter_twice s name d1 d2 :
  counters s !! name = None →
  GetCounter (UpdateCounter (UpdateCounter s name d1) name d2) name =
    (add64 d1 d2, true).
Proof.
  intros Habsent.
  rewrite GetCounter_UpdateCounter, counters_UpdateCounter_eq, Habsent. simpl.
  by rewrite add64_0_l, add64_wrap_l.
Qed.

Lemma UpdateBatch_two_counters s name d1 d2 :
  (UpdateBatch s [spec.counter_entry name d1; spec.counter_entry name d2]).1 =
    UpdateCounter (UpdateCounter s name d1) name d2.
Proof. reflexivity. Qed.

(** C2.  From a state without the counter [name], adding [d1] and then [d2],
    by two point calls or by two entries of one batch, makes [GetCounter]
    return the int64 sum of [d1] and [d2] with found = true; adding [d2]
    first gives the same.  The int64 sum is the integer [d1 + d2] whenever
    that is an int64. *)
Theorem AddCounter_accumulates (s : MemStorage) (name : string) (d1 d2 : Z) :
  counters s !! name = None →
  GetCounter (UpdateCounter (UpdateCounter s name d1) name d2) name
    = (add64 d1 d2, true) ∧
  GetCounter (UpdateBatch s [spec.counter_entry name d1;
                             spec.counter_entry name d2]).1 name
    = (add64 d1 d2, true) ∧
  GetCounter (UpdateCounter (UpdateCounter s name d2) name d1) name
    = (add64 d1 d2, true) ∧
  GetCounter (UpdateBatch s [spec.counter_entry name d2;
                             spec.counter_entry name d1]).1 name
    = (add64 d1 d2, true) ∧
  (in_int64 (d1 + d2) → add64 d1 d2 = (d1 + d2)%Z).
Proof.
  intros Habsent.
  rewrite !UpdateBatch_two_counters.
  split; [by apply UpdateCounter_twice |].
  split; [by apply UpdateCounter_twice |].
  split; [rewrite (add64_comm d1 d2); by apply UpdateCounter_twice |].
  split; [rewrite (add64_comm d1 d2); by apply UpdateCounter_twice |].
  intros Hr. by apply wrap64_in_range.
Qed.

Lemma AddCounter_accumulates_witness :
  GetCounter (UpdateCounter (UpdateCounter NewMemStorage "c1" 5) "c1" 3) "c1"
    = (8%Z, true).
Proof.
  destruct (AddCounter_accumulates NewMemStorage "c1" 5 3) as [H _].
  - reflexivity.
  - exact H.
Defined.

(** ** gauges: last write wins *)

Lemma set_gauges_snoc s calls c :
  spec.set_gauges s (calls ++ [c]) = UpdateGauge (spec.set_gauges s calls) c.1 c.2.
Proof. unfold spec.set_gauges. by rewrite fold_left_app. Qed.

Lemma most_recent_snoc name calls c :
  spec.most_recent name (calls ++ [c]) =
    if decide (c.1 = name) then Some c else spec.most_recent name calls.
Proof.
  unfold spec.most_recent. rewrite filter_app, filter_cons, filter_nil.
  case_decide.
  - by rewrite last_snoc.
  - by rewrite app_nil_r.
Qed.

Lemma most_recent_name name calls c :
  spec.most_recent name calls = Some c → c.1 = name.
Proof.
  induction calls as [|c' calls IH] using rev_ind.
  - discriminate.
  - rewrite most_recent_snoc. case_decide; [congruence | auto].
Qed.

Lemma most_recent_None name calls :
  spec.most_recent name calls = None ↔ name ∉ calls.*1.
Proof.
  induction calls as [|c calls IH] using rev_ind.
  - split; [intros _; apply not_elem_of_nil | reflexivity].
  - rewrite most_recent_snoc, fmap_app, not_elem_of_app. simpl.
    case_decide as Hc.
    + split; [discriminate | intros [_ Hn]].
      exfalso. apply Hn. subst name. apply list_elem_of_singleton. reflexivity.
    + rewrite IH. split; [intros Hn | tauto].
      split; [done |]. rewrite list_elem_of_singleton. congruence.
Qed.

Lemma set_gauges_lookup s calls name :
  gauges (spec.set_gauges s calls) !! name =
    match spec.most_recent name calls with
    | Some c => Some c.2
    | None => gauges s !! name
    end.
Proof.
  induction calls as [|c calls IH] using rev_ind.
  - reflexivity.
  - rewrite set_gauges_snoc, most_recent_snoc. unfold UpdateGauge. simpl.
    case_decide as Hc.
    + subst name. by rewrite lookup_insert_eq.
    + by rewrite lookup_insert_ne.
Qed.

(** C3.  After any sequence of [UpdateGauge] calls on a new storage,
    [GetGauge name] returns the value of the most recent call for [name]
    with found = true, and returns found = false exactly when no call of
    the sequence was for [name]. *)
Theorem GetGauge_last_write_wins (calls : list (string * float)) (name : string) :
  GetGauge (spec.set_gauges NewMemStorage calls) name =
    match spec.most_recent name calls with
    | Some c => (c.2, true)
    | None => (0%float, false)
    end
  ∧ ((GetGauge (spec.set_gauges NewMemStorage calls) name).2 = false
     ↔ name ∉ calls.*1).
Proof.
  assert (Hget : GetGauge (spec.set_gauges NewMemStorage calls) name =
    match spec.most_recent name calls with
    | Some c => (c.2, true)
    | None => (0%float, false)
    end).
  { unfold GetGauge. rewrite set_gauges_lookup.
    destruct (spec.most_recent name calls); [reflexivity |].
    simpl. by rewrite lookup_empty. }
  split; [exact Hget |].
  rewrite Hget, <- most_recent_None.
  destruct (spec.most_recent name calls); simpl; split; congruence.
Qed.

(** The most recent call is the one after which [name] is not set again. *)
Lemma most_recent_split name v (before after : list (string * float)) :
  name ∉ after.*1 →
  spec.most_recent name (before ++ (name, v) :: after) = Some (name, v).
Proof.
  intros Hafter. unfold spec.most_recent.
  rewrite filter_app, filter_cons. simpl.
  rewrite decide_True by reflexivity.
  apply most_recent_None in Hafter. unfold spec.most_recent in Hafter.
  destruct (filter (λ c, c.1 = name) after) as [|c l] eqn:Hf.
  - by rewrite last_snoc.
  - exfalso. clear -Hafter.
    revert c Hafter. induction l as [|c' l IH]; intros c; [discriminate |].
    simpl. apply IH.
Qed.

Example GetGauge_overwrite :
  GetGauge (spec.set_gauges NewMemStorage
              [("g1", 1.5%float); ("g2", 7%float); ("g1", 2.5%float)]) "g1"
    = (2.5%float, true).
Proof. reflexivity. Qed.

(** ** loading a snapshot file *)

Section Load.
Context `{codec : JSON}.

Lemma LoadFromFile_regular s filename fs data metrics :
  fs !! filename = Some (RegularFile data) →
  json_Unmarshal data = inl metrics →
  LoadFromFile s filename fs = (fold_left LoadFromFile_body metrics s, None).
Proof.
  intros Hfile Hparse. unfold LoadFromFile, os_ReadFile.
  by rewrite Hfile, Hparse.
Qed.

(** C5.  Loading from a path that names nothing returns a nil error and the
    storage as it was; loading a file whose bytes the JSON decoder rejects
    returns the decoder's error and the storage as it was. *)
Theorem LoadFromFile_missing_or_malformed (s : MemStorage) (filename : string) (fs : FS) :
  (fs !! filename = None → LoadFromFile s filename fs = (s, None)) ∧
  (∀ data e,
      fs !! filename = Some (RegularFile data) →
      json_Unmarshal data = inr e →
      LoadFromFile s filename fs = (s, Some e)).
Proof.
  unfold LoadFromFile, os_ReadFile. split.
  - intros Hnone. by rewrite Hnone.
  - intros data e Hfile Hbad. by rewrite Hfile, Hbad.
Qed.

Lemma LoadFromFile_body_counters_other s mtr name :
  ID mtr ≠ name →
  counters (LoadFromFile_body s mtr) !! name = counters s !! name.
Proof.
  intros Hne. unfold LoadFromFile_body.
  destruct (MType mtr =? "gauge")%string; [by destruct (Value mtr) |].
  destruct (MType mtr =? "counter")%string; [|done].
  destruct (Delta mtr); [|done]. simpl. by rewrite lookup_insert_ne.
Qed.

Lemma LoadFromFile_body_counter s mtr d :
  MType mtr = "counter" → Delta mtr = Some d →
  counters (LoadFromFile_body s mtr) !! ID mtr = Some d.
Proof.
  intros Hk Hd. unfold LoadFromFile_body. rewrite Hk, Hd. simpl.
  by rewrite lookup_insert_eq.
Qed.

(** A counter value survives the rest of the file when no later counter
    record with a delta names it again. *)
Lemma LoadFromFile_loop_keeps after : ∀ s name d,
  counters s !! name = Some d →
  (∀ r', r' ∈ after → MType r' = "counter" → ID r' = name → Delta r' = None) →
  counters (fold_left LoadFromFile_body after s) !! name = Some d.
Proof.
  induction after as [|r' after IH]; intros s name d Hs Hlater; [exact Hs |].
  simpl. apply IH.
  - destruct (decide (ID r' = name)) as [Heq|Hne].
    + unfold LoadFromFile_body.
      destruct (MType r' =? "gauge")%string eqn:Hg; [by destruct (Value r') |].
      destruct (MType r' =? "counter")%string eqn:Hc; [|done].
      apply String.eqb_eq in Hc.
      rewrite (Hlater r'); [done | by left | done | done].
    + by rewrite LoadFromFile_body_counters_other.
  - intros r'' Hin. apply Hlater. by right.
Qed.

(** C6, as the code has it.  Loading sets counters, it does not add: a
    counter record with delta [d] that no later counter record with a delta
    for the same name follows leaves exactly [d] stored under its name,
    whatever the storage held for that name before. *)
Theorem LoadFromFile_sets_counters (s : MemStorage) (filename data : string)
    (fs : FS) (before after : list Metrics) (r : Metrics) (d : Z) :
  fs !! filename = Some (RegularFile data) →
  json_Unmarshal data = inl (before ++ r :: after) →
  MType r = "counter" → Delta r = Some d →
  (∀ r', r' ∈ after → MType r' = "counter" → ID r' = ID r → Delta r' = None) →
  (LoadFromFile s filename fs).2 = None ∧
  counters (LoadFromFile s filename fs).1 !! ID r = Some d.
Proof.
  intros Hfile Hparse Hk Hd Hlater.
  rewrite (LoadFromFile_regular _ _ _ _ _ Hfile Hparse). simpl.
  split; [reflexivity |].
  rewrite fold_left_app. simpl.
  apply LoadFromFile_loop_keeps; [|exact Hlater].
  by apply LoadFromFile_body_counter.
Qed.

End Load.

Import fixtures.

Lemma LoadFromFile_missing_or_malformed_witness :
  LoadFromFile (codec := one_document "[]" []) NewMemStorage "missing.json" ∅
    = (NewMemStorage, None) ∧
  LoadFromFile (codec := one_document "[]" [])
      (UpdateGauge NewMemStorage "g1" 1.25) "metrics.json"
      {[ "metrics.json" := RegularFile (js "[{'id':") ]}
    = (UpdateGauge NewMemStorage "g1" 1.25, Some (ErrJSON "invalid character")).
Proof.
  split.
  - apply (LoadFromFile_missing_or_malformed (codec := one_document "[]" [])).
    reflexivity.
  - eapply (LoadFromFile_missing_or_malformed (codec := one_document "[]" []));
      reflexivity.
Defined.

(** C6, as the specification words it, fails: in a file with two counter
    records for one name the second is what stays stored, so the first
    record's delta is not. *)
Lemma LoadFromFile_duplicate_counter_records : ¬ spec.every_counter_record_stored.
Proof.
  intros Hclaim.
  pose (data := js "[{'id':'c1','type':'counter','delta':5},{'id':'c1','type':'counter','delta':7}]").
  pose (metrics := [spec.counter_entry "c1" 5; spec.counter_entry "c1" 7]).
  pose (fs := ({[ "metrics.json" := RegularFile data ]} : FS)).
  assert (Hfirst :
    counters (LoadFromFile (codec := one_document data metrics) NewMemStorage
                "metrics.json" fs).1 !! "c1" = Some 5%Z).
  { apply (Hclaim (one_document data metrics) NewMemStorage "metrics.json" data
             fs metrics (spec.counter_entry "c1" 5) 5%Z).
    - reflexivity.
    - reflexivity.
    - left.
    - reflexivity.
    - reflexivity. }
  assert (Hstored :
    counters (LoadFromFile (codec := one_document data metrics) NewMemStorage
                "metrics.json" fs).1 !! "c1" = Some 7%Z) by reflexivity.
  rewrite Hstored in Hfirst. discriminate Hfirst.
Qed.

Lemma LoadFromFile_sets_counters_witness :
  counters (LoadFromFile (codec := one_document "c1=5" [spec.counter_entry "c1" 5])
              (UpdateCounter NewMemStorage "c1" 100) "metrics.json"
              {[ "metrics.json" := RegularFile "c1=5" ]}).1 !! "c1" = Some 5%Z.
Proof.
  refine (proj2 (LoadFromFile_sets_counters
            (codec := one_document "c1=5" [spec.counter_entry "c1" 5])
            (UpdateCounter NewMemStorage "c1" 100) "metrics.json" "c1=5"
            {[ "metrics.json" := RegularFile "c1=5" ]}
            [] [] (spec.counter_entry "c1" 5) 5%Z _ _ _ _ _)).
  - reflexivity.
  - reflexivity.
  - reflexivity.
  - reflexivity.
  - intros r' Hin. inversion Hin.
Defined.

(** ** saving and loading back *)

Lemma append_loop {A B : Type} (f : A → B) (l : list A) (acc : list B) :
  fold_left (λ acc x, acc ++ [f x]) l acc = acc ++ (f <$> l).
Proof.
  revert acc. induction l as [|x l IH]; intros acc; simpl.
  - by rewrite app_nil_r.
  - rewrite IH. by rewrite <- app_assoc.
Qed.

Lemma snapshot_records_eq `{order : MapRange} s :
  snapshot_records s =
    (gauge_record <$> map_range (gauges s)) ++
    (counter_record <$> map_range (counters s)).
Proof. unfold snapshot_records. by rewrite !append_loop. Qed.

Lemma assign_all_union {V : Type} (l : list (string * V)) (m : gmap string V) :
  spec.assign_all l m = list_to_map (reverse l) ∪ m.
Proof.
  revert m. induction l as [|[k v] l IH]; intros m; simpl.
  - by rewrite (left_id_L ∅ (∪)).
  - unfold spec.assign_all in *. simpl. rewrite IH.
    rewrite reverse_cons, list_to_map_app. simpl.
    rewrite <- (assoc_L (∪)). f_equal.
    rewrite insert_empty. apply insert_union_singleton_l.
Qed.

Lemma assign_all_range {V : Type} (l : list (string * V)) (m : gmap string V) :
  l ≡ₚ map_to_list m → spec.assign_all l ∅ = m.
Proof.
  intros Hperm. rewrite assign_all_union, (right_id_L ∅ (∪)).
  etrans; [|apply list_to_map_to_list].
  apply list_to_map_proper.
  - rewrite reverse_Permutation, Hperm. apply NoDup_fst_map_to_list.
  - by rewrite reverse_Permutation.
Qed.

Lemma load_gauge_records gs : ∀ s,
  fold_left LoadFromFile_body (gauge_record <$> gs) s =
    {| gauges := spec.assign_all gs (gauges s); counters := counters s |}.
Proof.
  induction gs as [|kv gs IH]; intros s; simpl.
  - by destruct s.
  - by rewrite IH.
Qed.

Lemma load_counter_records cs : ∀ s,
  fold_left LoadFromFile_body (counter_record <$> cs) s =
    {| gauges := gauges s; counters := spec.assign_all cs (counters s) |}.
Proof.
  induction cs as [|kv cs IH]; intros s; simpl.
  - by destruct s.
  - by rewrite IH.
Qed.


Lemma os_ReadFile_after_WriteFile filename data fs fs' :
  os_WriteFile filename data fs = (fs', None) →
  os_ReadFile filename fs' = inl data.
Proof.
  unfold os_WriteFile, os_ReadFile. intros Hw.
  destruct (fs !! filename) as [[old|e]|]; inversion Hw; subst;
    by rewrite lookup_insert_eq.
Qed.




(** What was loaded instead. *)
Example LoadFromFile_coerced_name :
  LoadFromFile (codec := facts.coercing_codec) NewMemStorage "metrics.json"
    {[ "metrics.json" := RegularFile facts.coerced_text ]}
  = (UpdateGauge NewMemStorage facts.name_uFFFD 1.5, None).
Proof. reflexivity. Qed.

(** ** the audit notifier *)

Section Notifier.
Context {W : Type}.
Implicit Types (ss : list (audit.Sink W)).

Lemma Enabled_false (a : option (audit.Auditor W)) :
  audit.Enabled a = false ↔ a = None ∨ ∃ a', a = Some a' ∧ audit.sinks a' = [].
Proof.
  unfold audit.Enabled. destruct a as [a'|].
  - destruct (audit.sinks a') as [|s rest] eqn:Hs; simpl.
    + split; [intros _; right; exists a'; by rewrite Hs | reflexivity].
    + split; [discriminate |].
      intros [Hnil | (a'' & Heq & Hnone)]; [discriminate |].
      inversion Heq; subst a''. rewrite Hs in Hnone. discriminate.
  - split; [by left | reflexivity].
Qed.

Lemma Notify_loop_delivers ev ss : ∀ w,
  spec.Delivers ev ss w (audit.Notify_loop ss ev w).
Proof.
  induction ss as [|s rest IH]; intros w; simpl.
  - constructor.
  - destruct (audit.Send s ev w) as [w1 e] eqn:Hsend.
    econstructor; [exact Hsend | apply IH].
Qed.

(** What [Delivers] relates is determined by the sinks alone. *)
Lemma Delivers_functional ev ss w w1 w2 :
  spec.Delivers ev ss w w1 → spec.Delivers ev ss w w2 → w1 = w2.
Proof.
  intros H1. revert w2. induction H1 as [w|s rest w wa e wb Hsend _ IH]; intros w2 H2.
  - by inversion H2.
  - inversion H2 as [|? ? ? wa' e' ? Hsend' Hrest]; subst.
    rewrite Hsend in Hsend'. inversion Hsend'; subst. by apply IH.
Qed.

(** C7.  A nil auditor and an auditor without sinks are exactly the
    disabled ones, and for them [Notify] returns the world as it was: the
    clock is not read, no event is built, nothing is sent.  With sinks,
    [Notify] reads the clock once, builds one event from that reading, the
    names and the address, and sends this event to every sink in turn;
    what a sink returns is dropped, and [Notify] itself returns no error. *)
Theorem Notify_best_effort (a : option (audit.Auditor W)) (metrics : list string) (ip : string)
    (now : W → audit.Time * W) (w : W) :
  (audit.Enabled a = false ↔ a = None ∨ ∃ a', a = Some a' ∧ audit.sinks a' = []) ∧
  (audit.Enabled a = false → audit.Notify a metrics ip now w = w) ∧
  (∀ a', a = Some a' → audit.sinks a' ≠ [] →
     spec.Delivers
       {| audit.TS := audit.Unix (now w).1; audit.Metrics := metrics;
          audit.IPAddress := ip |}
       (audit.sinks a') (now w).2 (audit.Notify a metrics ip now w)).
Proof.
  split; [apply Enabled_false |]. split.
  - intros Hoff. unfold audit.Notify. by rewrite Hoff.
  - intros a' -> Hsinks. unfold audit.Notify, audit.Enabled.
    destruct (audit.sinks a') as [|s rest] eqn:Hs; [done |]. simpl.
    destruct (now w) as [t w1]. simpl.
    destruct (audit.Send s _ w1) as [w2 e] eqn:Hsend.
    econstructor; [exact Hsend | apply Notify_loop_delivers].
Qed.

End Notifier.

(** Two sinks, the first of which fails: the clock is read once (7 becomes
    8), both sinks receive the same event stamped 7. *)
Example Notify_failing_sink :
  audit.Notify (audit.New [probe 0 (Some (ErrNet "connection refused")); probe 1 None])
    ["g1"; "c1"] "192.0.2.55" ticking_clock (7%nat, [])
  = (8%nat,
     [(0%nat, {| audit.TS := 7; audit.Metrics := ["g1"; "c1"];
                 audit.IPAddress := "192.0.2.55" |});
      (1%nat, {| audit.TS := 7; audit.Metrics := ["g1"; "c1"];
                 audit.IPAddress := "192.0.2.55" |})]).
Proof. reflexivity. Qed.

Lemma Notify_best_effort_witness :
  audit.Notify (audit.New []) ["g1"] "192.0.2.55" ticking_clock (7%nat, [])
    = (7%nat, []) ∧
  spec.Delivers
    {| audit.TS := 7; audit.Metrics := ["g1"]; audit.IPAddress := "192.0.2.55" |}
    [probe 0 (Some (ErrNet "connection refused")); probe 1 None]
    (8%nat, [])
    (audit.Notify
       (audit.New [probe 0 (Some (ErrNet "connection refused")); probe 1 None])
       ["g1"] "192.0.2.55" ticking_clock (7%nat, [])).
Proof.
  split.
  - apply (proj1 (proj2 (Notify_best_effort (audit.New []) ["g1"] "192.0.2.55"
                           ticking_clock (7%nat, [])))).
    reflexivity.
  - apply (proj2 (proj2 (Notify_best_effort
             (audit.New [probe 0 (Some (ErrNet "connection refused")); probe 1 None])
             ["g1"] "192.0.2.55" ticking_clock (7%nat, [])))
             {| audit.sinks := [probe 0 (Some (ErrNet "connection refused")); probe 1 None] |}).
    + reflexivity.
    + discriminate.
Defined.

(** ** the network sink *)

Section NetworkSink.
Context {W : Type} `{net : audit.HTTP W}.

(** C9, as the code has it.  Once the event is encoded, the request built
    and a response received, [Send] returns nil exactly when the status
    code is below 300, and for a status of 300 or more it returns the error
    that reports the status: every 2xx status succeeds, every 3xx, 4xx and
    5xx status fails. *)
Theorem HTTPSink_Send_status (s : audit.HTTPSink) (ev : audit.Event) (w w' : W)
    (body : string) (req : audit.Request) (resp : audit.Response) :
  audit.json_Marshal ev = inl body →
  audit.http_NewRequestWithContext "POST" (audit.url s) body = inl req →
  audit.client_Do (audit.Header_Set_ContentType req "application/json") w
    = (inl resp, w') →
  ((audit.HTTPSink_Send s ev w).2 = None ↔ (audit.StatusCode resp < 300)%Z) ∧
  ((300 ≤ audit.StatusCode resp)%Z →
   audit.HTTPSink_Send s ev w =
     (w', Some (ErrFmt "audit sink HTTP status %d" (audit.StatusCode resp)))).
Proof.
  intros Henc Hreq Hdo. unfold audit.HTTPSink_Send.
  rewrite Henc, Hreq, Hdo.
  destruct (Z.leb_spec 300 (audit.StatusCode resp)) as [Hge|Hlt]; simpl.
  - split; [split; [discriminate | lia] | reflexivity].
  - split; [split; [intros _; exact Hlt | reflexivity] | lia].
Qed.

End NetworkSink.

Lemma HTTPSink_Send_status_witness :
  (audit.HTTPSink_Send (net := answering 204) (audit.NewHTTPSink "http://audit.local/events")
     {| audit.TS := 7; audit.Metrics := ["g1"]; audit.IPAddress := "192.0.2.55" |} tt).2
  = None.
Proof.
  apply (proj1 (HTTPSink_Send_status (net := answering 204)
           (audit.NewHTTPSink "http://audit.local/events")
           {| audit.TS := 7; audit.Metrics := ["g1"]; audit.IPAddress := "192.0.2.55" |}
           tt tt "{}"
           {| audit.Method := "POST"; audit.URL := "http://audit.local/events";
              audit.ContentType := ""; audit.Payload := "{}" |}
           {| audit.StatusCode := 204 |} eq_refl eq_refl eq_refl)).
  simpl. lia.
Defined.

(** C9, as the specification words it, fails: for a 304 response the status
    is a 3xx one and [Send] returns an error. *)
Lemma HTTPSink_Send_304_fails : ¬ spec.nil_iff_2xx_or_3xx.
Proof.
  intros Hclaim.
  pose (s := audit.NewHTTPSink "http://audit.local/events").
  pose (ev := {| audit.TS := 7; audit.Metrics := ["g1"];
                 audit.IPAddress := "192.0.2.55" |}).
  assert (Hnil : (audit.HTTPSink_Send (net := answering 304) s ev tt).2 = None).
  { apply (Hclaim unit (answering 304) s ev tt tt "{}"
             {| audit.Method := "POST"; audit.URL := "http://audit.local/events";
                audit.ContentType := ""; audit.Payload := "{}" |}
             {| audit.StatusCode := 304 |} eq_refl eq_refl eq_refl).
    simpl. lia. }
  discriminate Hnil.
Qed.

(** ** the batch handler *)

Lemma collect_names_ids (batch : list Metrics) :
  handler.collect_names batch = ID <$> batch.
Proof. unfold handler.collect_names. by rewrite append_loop. Qed.

Section Handler.
Context `{dec : handler.Decoder} {W : Type}.

(** With [MemStorage], which has [UpdateBatch], a request that passes the
    header and body checks is always answered 200, and an enabled auditor
    is notified once, with the ids of all entries of the batch. *)
Lemma UpdatesHandler_MemStorage (storage : MemStorage) (key : string)
    (aud : option (audit.Auditor W)) (now : W → audit.Time * W)
    (r : handler.Request) (w : W) (batch : list Metrics) :
  handler.ContentType r = "application/json" →
  handler.json_Decode (LimitReader (handler.Body r) (10 * 2 ^ 20)) = inl batch →
  batch ≠ [] →
  handler.UpdatesHandler storage key aud now r w =
    (handler.SignedJSON "ok" key, (UpdateBatch storage batch).1,
     if audit.Enabled aud
     then audit.Notify aud (ID <$> batch) (handler.ClientIP r) now w
     else w).
Proof.
  intros Hct Hdec Hne. unfold handler.UpdatesHandler.
  rewrite Hct, Hdec. simpl.
  destruct batch as [|met rest]; [done |]. simpl.
  rewrite collect_names_ids.
  destruct aud as [au|]; [|reflexivity].
  rewrite bool_decide_eq_true_2 by discriminate. reflexivity.
Qed.

End Handler.

(** The per-item path of the handler answers without an early return only
    when every entry carries its required field, so there the ids of the
    batch are the names that were updated. *)
Lemma fallback_all_updated {S : Type} `{store : handler.Storage S}
    (batch : list Metrics) : ∀ (storage storage' : S),
  handler.fallback storage batch = (storage', None) →
  spec.updated_names batch = ID <$> batch.
Proof.
  unfold spec.updated_names.
  induction batch as [|m rest IH]; intros storage storage' Hok; [reflexivity |].
  assert (Hm : is_Some (spec.required_field m) ∧
               ∃ storage1, handler.fallback storage1 rest = (storage', None)).
  { simpl in Hok. unfold spec.required_field.
    rewrite !String_eqb_decide in Hok.
    destruct (decide (MType m = "gauge")) as [Hg|Hg].
    - rewrite (bool_decide_eq_true_2 _ Hg) in Hok.
      destruct (Value m) as [v|]; [|discriminate Hok]. split; eauto.
    - rewrite (bool_decide_eq_false_2 _ Hg) in Hok.
      destruct (decide (MType m = "counter")) as [Hc|Hc].
      + rewrite (bool_decide_eq_true_2 _ Hc) in Hok.
        destruct (Delta m) as [d|]; [|discriminate Hok]. split; eauto.
      + rewrite (bool_decide_eq_false_2 _ Hc) in Hok. discriminate Hok. }
  destruct Hm as [Hfield [storage1 Hrest]].
  rewrite filter_cons, decide_True by exact Hfield.
  rewrite !fmap_cons. f_equal. exact (IH _ _ Hrest).
Qed.

(** C8.  The request of the handler's own example for a gauge without a
    value, sent to a handler over [MemStorage] with the test auditor: the
    reply is the 200 one, the storage is as new (nothing was updated), and
    the auditor's sink has received an event that names "g2". *)
Theorem UpdatesHandler_audits_skipped_entry :
  let batch := [{| ID := "g2"; MType := Gauge; Delta := None; Value := None |}] in
  let body := js "[{'id':'g2','type':'gauge'}]" in
  let r := {| handler.ContentType := "application/json"; handler.Body := body;
              handler.ClientIP := "192.0.2.55" |} in
  handler.UpdatesHandler (dec := one_body body batch) NewMemStorage ""
    server_test.newTestAuditor (fixed_clock 1700000000) r []
  = (handler.SignedJSON "ok" "", NewMemStorage,
     [{| audit.TS := 1700000000; audit.Metrics := ["g2"];
         audit.IPAddress := "192.0.2.55" |}])
  ∧ handler.status_of (handler.SignedJSON "ok" "") = 200%Z
  ∧ spec.updated_names batch = [].
Proof.
  intros batch body r.
  split; [|split].
  - vm_compute. reflexivity.
  - reflexivity.
  - reflexivity.
Qed.

(** The records written for a storage with one gauge and one counter. *)
Example snapshot_records_g1_c1 :
  snapshot_records (order := listed_order)
    (UpdateCounter (UpdateGauge NewMemStorage "g1" 1.25) "c1" 5)
  = [ {| ID := "g1"; MType := "gauge"; Delta := None; Value := Some 1.25%float |};
      {| ID := "c1"; MType := "counter"; Delta := Some 5%Z; Value := None |} ].
Proof. reflexivity. Qed.

(* ===================================================================== *)
(** * Part III: further properties of the code                            *)
(* ===================================================================== *)

(** ** what a batch does to one name *)

Lemma wrap64_add_wrap a b : wrap64 (wrap64 a + b) = wrap64 (a + b).
Proof. exact (add64_wrap_l a b). Qed.

Lemma sumZ_snoc l d : facts.sumZ (l ++ [d]) = (facts.sumZ l + d)%Z.
Proof.
  unfold facts.sumZ. induction l as [|x l IH]; simpl; [lia |].
  rewrite IH. lia.
Qed.

Lemma sumZ_Permutation l1 l2 : l1 ≡ₚ l2 → facts.sumZ l1 = facts.sumZ l2.
Proof.
  unfold facts.sumZ. induction 1 as [|x l l' _ IH|x y l|l l' l'' _ IH1 _ IH2];
    simpl; lia.
Qed.

Lemma UpdateBatch_snoc s batch met :
  (UpdateBatch s (batch ++ [met])).1 = UpdateBatch_body (UpdateBatch s batch).1 met.
Proof. unfold UpdateBatch. simpl. by rewrite UpdateBatch_loop_app. Qed.

Lemma UpdateBatch_body_counters s met name :
  counters (UpdateBatch_body s met) !! name =
    match (if decide (MType met = "counter" ∧ ID met = name)
           then Delta met else None) with
    | Some d => Some (add64 (default 0%Z (counters s !! name)) d)
    | None => counters s !! name
    end.
Proof.
  rewrite UpdateBatch_body_spec. unfold spec.apply_entry, spec.required_field.
  destruct (decide (MType met = "gauge")) as [Hg|Hg].
  - rewrite decide_False by (intros [Hc _]; congruence).
    by destruct (Value met).
  - destruct (decide (MType met = "counter")) as [Hc|Hc].
    + destruct (Delta met) as [d|] eqn:Hd; simpl.
      * destruct (decide (ID met = name)) as [Hn|Hn].
        -- rewrite decide_True by done. subst name. by rewrite lookup_insert_eq.
        -- rewrite decide_False by (intros [_ ?]; done).
           by rewrite lookup_insert_ne.
      * by case_decide.
    + by rewrite decide_False by (intros [? _]; done).
Qed.

Lemma UpdateBatch_body_gauges s met name :
  gauges (UpdateBatch_body s met) !! name =
    match (if decide (MType met = "gauge" ∧ ID met = name)
           then Value met else None) with
    | Some v => Some v
    | None => gauges s !! name
    end.
Proof.
  rewrite UpdateBatch_body_spec. unfold spec.apply_entry, spec.required_field.
  destruct (decide (MType met = "gauge")) as [Hg|Hg].
  - destruct (Value met) as [v|] eqn:Hv; simpl.
    + destruct (decide (ID met = name)) as [Hn|Hn].
      * rewrite decide_True by done. subst name. by rewrite lookup_insert_eq.
      * rewrite decide_False by (intros [_ ?]; done).
        by rewrite lookup_insert_ne.
    + by case_decide.
  - rewrite (decide_False (P := MType met = "gauge" ∧ ID met = name))
      by (intros [? _]; done).
    destruct (decide (MType met = "counter")); [|done].
    by destruct (Delta met).
Qed.

Lemma deltas_for_snoc name batch met :
  facts.deltas_for name (batch ++ [met]) =
    facts.deltas_for name batch ++
    match (if decide (MType met = "counter" ∧ ID met = name)
           then Delta met else None) with
    | Some d => [d]
    | None => []
    end.
Proof.
  unfold facts.deltas_for. rewrite omap_app. simpl.
  by destruct (decide (MType met = "counter" ∧ ID met = name));
    [destruct (Delta met) |].
Qed.

(** X1.  After a batch, the counter stored under a name is its old value
    (0 when absent) plus all the deltas the batch carries for it, as an
    int64; a name for which the batch carries no delta is left as it was,
    absent included. *)
Theorem UpdateBatch_counter_total (s : MemStorage) (batch : list Metrics)
    (name : string) :
  counters (UpdateBatch s batch).1 !! name =
    match facts.deltas_for name batch with
    | [] => counters s !! name
    | ds => Some (wrap64 (default 0%Z (counters s !! name) + facts.sumZ ds))
    end.
Proof.
  induction batch as [|met batch IH] using rev_ind; [reflexivity |].
  rewrite UpdateBatch_snoc, UpdateBatch_body_counters, IH, deltas_for_snoc.
  destruct (decide (MType met = "counter" ∧ ID met = name)) as [Hsel|Hsel];
    [destruct (Delta met) as [d|] |]; simpl.
  - destruct (facts.deltas_for name batch) as [|x ds]; simpl.
    + f_equal. unfold add64, facts.sumZ. simpl. apply (f_equal wrap64). lia.
    + f_equal. change (x :: ds ++ [d]) with ((x :: ds) ++ [d]).
      rewrite sumZ_snoc. unfold add64. rewrite wrap64_add_wrap.
      apply (f_equal wrap64). lia.
  - by rewrite app_nil_r.
  - by rewrite app_nil_r.
Qed.

Lemma UpdateBatch_loop_counters_ext batch : ∀ s1 s2,
  counters s1 = counters s2 →
  counters (UpdateBatch_loop s1 batch) = counters (UpdateBatch_loop s2 batch).
Proof.
  induction batch as [|met batch IH]; intros s1 s2 Heq; [exact Heq |].
  simpl. apply IH. apply map_eq. intros name.
  by rewrite !UpdateBatch_body_counters, Heq.
Qed.

Lemma add64_swap o d1 d2 : add64 (add64 o d1) d2 = add64 (add64 o d2) d1.
Proof.
  unfold add64. rewrite !wrap64_add_wrap. f_equal. lia.
Qed.

Lemma UpdateBatch_body_counters_swap s x y :
  counters (UpdateBatch_body (UpdateBatch_body s x) y) =
  counters (UpdateBatch_body (UpdateBatch_body s y) x).
Proof.
  apply map_eq. intros name. rewrite !UpdateBatch_body_counters.
  destruct (decide (MType x = "counter" ∧ ID x = name)) as [Hx|Hx];
    [destruct (Delta x) as [dx|] |];
    (destruct (decide (MType y = "counter" ∧ ID y = name)) as [Hy|Hy];
      [destruct (Delta y) as [dy|] |]); simpl; try reflexivity.
  f_equal. apply add64_swap.
Qed.

(** X2.  The counters a batch leaves do not depend on the order of its
    entries. *)
Theorem UpdateBatch_counters_any_order (s : MemStorage) (b1 b2 : list Metrics) :
  b1 ≡ₚ b2 →
  counters (UpdateBatch s b1).1 = counters (UpdateBatch s b2).1.
Proof.
  intros Hperm. unfold UpdateBatch. simpl. revert s.
  induction Hperm as [|x l l' _ IH|x y l|l l' l'' _ IH1 _ IH2]; intros s; simpl.
  - reflexivity.
  - apply IH.
  - apply UpdateBatch_loop_counters_ext, UpdateBatch_body_counters_swap.
  - by rewrite IH1.
Qed.

Lemma UpdateBatch_counters_any_order_witness :
  counters (UpdateBatch NewMemStorage
              [spec.counter_entry "c1" 5; spec.counter_entry "c2" 1;
               spec.counter_entry "c1" 3]).1
  = counters (UpdateBatch NewMemStorage
                [spec.counter_entry "c1" 3; spec.counter_entry "c1" 5;
                 spec.counter_entry "c2" 1]).1.
Proof.
  apply UpdateBatch_counters_any_order.
  exact (Permutation_app_comm
           [spec.counter_entry "c1" 5; spec.counter_entry "c2" 1]
           [spec.counter_entry "c1" 3]).
Defined.

(** X3.  After a batch, the gauge stored under a name is the last value
    the batch carries for it; a name for which the batch carries no value
    is left as it was. *)
Theorem UpdateBatch_gauge_last (s : MemStorage) (batch : list Metrics)
    (name : string) :
  gauges (UpdateBatch s batch).1 !! name =
    match last (facts.values_for name batch) with
    | Some v => Some v
    | None => gauges s !! name
    end.
Proof.
  induction batch as [|met batch IH] using rev_ind; [reflexivity |].
  rewrite UpdateBatch_snoc, UpdateBatch_body_gauges, IH.
  unfold facts.values_for. rewrite omap_app, last_app. simpl.
  destruct (decide (MType met = "gauge" ∧ ID met = name)) as [Hsel|Hsel];
    [destruct (Value met) as [v|] |]; reflexivity.
Qed.

(** A counter at the largest int64 that is given one more wraps around. *)
Example UpdateBatch_counter_overflow :
  GetCounter (UpdateBatch NewMemStorage
                [spec.counter_entry "c1" (2 ^ 63 - 1); spec.counter_entry "c1" 1]).1
    "c1" = ((- 2 ^ 63)%Z, true).
Proof. reflexivity. Qed.

(** ** what loading does to one name *)

Lemma MemStorage_eq (s1 s2 : MemStorage) :
  gauges s1 = gauges s2 → counters s1 = counters s2 → s1 = s2.
Proof. destruct s1, s2. simpl. by intros -> ->. Qed.

Lemma LoadFromFile_body_gauges s mtr name :
  gauges (LoadFromFile_body s mtr) !! name =
    match (if decide (MType mtr = "gauge" ∧ ID mtr = name)
           then Value mtr else None) with
    | Some v => Some v
    | None => gauges s !! name
    end.
Proof.
  unfold LoadFromFile_body. rewrite !String_eqb_decide.
  destruct (decide (MType mtr = "gauge")) as [Hg|Hg].
  - rewrite (bool_decide_eq_true_2 _ Hg).
    destruct (Value mtr) as [v|]; simpl.
    + destruct (decide (ID mtr = name)) as [Hn|Hn].
      * rewrite decide_True by done. subst name. by rewrite lookup_insert_eq.
      * rewrite decide_False by (intros [_ ?]; done).
        by rewrite lookup_insert_ne.
    + by case_decide.
  - rewrite (bool_decide_eq_false_2 _ Hg).
    rewrite decide_False by (intros [? _]; done).
    case_bool_decide; [|done]. by destruct (Delta mtr).
Qed.

Lemma LoadFromFile_body_counters s mtr name :
  counters (LoadFromFile_body s mtr) !! name =
    match (if decide (MType mtr = "counter" ∧ ID mtr = name)
           then Delta mtr else None) with
    | Some d => Some d
    | None => counters s !! name
    end.
Proof.
  unfold LoadFromFile_body. rewrite !String_eqb_decide.
  destruct (decide (MType mtr = "gauge")) as [Hg|Hg].
  - rewrite (bool_decide_eq_true_2 _ Hg).
    rewrite decide_False by (intros [Hc _]; congruence).
    by destruct (Value mtr).
  - rewrite (bool_decide_eq_false_2 _ Hg).
    destruct (decide (MType mtr = "counter")) as [Hc|Hc].
    + rewrite (bool_decide_eq_true_2 _ Hc).
      destruct (Delta mtr) as [d|]; simpl.
      * destruct (decide (ID mtr = name)) as [Hn|Hn].
        -- rewrite decide_True by done. subst name. by rewrite lookup_insert_eq.
        -- rewrite decide_False by (intros [_ ?]; done).
           by rewrite lookup_insert_ne.
      * by case_decide.
    + rewrite (bool_decide_eq_false_2 _ Hc).
      by rewrite decide_False by (intros [? _]; done).
Qed.

Lemma load_loop_gauges metrics s name :
  gauges (fold_left LoadFromFile_body metrics s) !! name =
    match last (facts.values_for name metrics) with
    | Some v => Some v
    | None => gauges s !! name
    end.
Proof.
  induction metrics as [|mtr metrics IH] using rev_ind; [reflexivity |].
  rewrite fold_left_app. simpl. rewrite LoadFromFile_body_gauges, IH.
  unfold facts.values_for. rewrite omap_app, last_app. simpl.
  destruct (decide (MType mtr = "gauge" ∧ ID mtr = name));
    [destruct (Value mtr) |]; reflexivity.
Qed.

Lemma load_loop_counters metrics s name :
  counters (fold_left LoadFromFile_body metrics s) !! name =
    match last (facts.deltas_for name metrics) with
    | Some d => Some d
    | None => counters s !! name
    end.
Proof.
  induction metrics as [|mtr metrics IH] using rev_ind; [reflexivity |].
  rewrite fold_left_app. simpl. rewrite LoadFromFile_body_counters, IH.
  unfold facts.deltas_for. rewrite omap_app, last_app. simpl.
  destruct (decide (MType mtr = "counter" ∧ ID mtr = name));
    [destruct (Delta mtr) |]; reflexivity.
Qed.

Lemma values_for_absent name metrics :
  Forall (λ mtr, ID mtr ≠ name) metrics → facts.values_for name metrics = [].
Proof.
  unfold facts.values_for. induction 1 as [|mtr metrics Hne _ IH]; [reflexivity |].
  simpl. rewrite decide_False by (intros [_ ?]; done). exact IH.
Qed.

Lemma deltas_for_absent name metrics :
  Forall (λ mtr, ID mtr ≠ name) metrics → facts.deltas_for name metrics = [].
Proof.
  unfold facts.deltas_for. induction 1 as [|mtr metrics Hne _ IH]; [reflexivity |].
  simpl. rewrite decide_False by (intros [_ ?]; done). exact IH.
Qed.

Section LoadMore.
Context `{codec : JSON}.

(** X5.  After a successful load, the gauge stored under a name is the
    value of the last gauge record of the file for that name, and the
    counter stored under a name is the delta of the last counter record for
    it (the deltas of the file are not added up); without such a record the
    name keeps what the storage held. *)
Theorem LoadFromFile_last_record (s : MemStorage) (filename data : string)
    (fs : FS) (metrics : list Metrics) (name : string) :
  fs !! filename = Some (RegularFile data) →
  json_Unmarshal data = inl metrics →
  gauges (LoadFromFile s filename fs).1 !! name =
    match last (facts.values_for name metrics) with
    | Some v => Some v
    | None => gauges s !! name
    end ∧
  counters (LoadFromFile s filename fs).1 !! name =
    match last (facts.deltas_for name metrics) with
    | Some d => Some d
    | None => counters s !! name
    end.
Proof.
  intros Hfile Hparse.
  rewrite (LoadFromFile_regular _ _ _ _ _ Hfile Hparse). simpl.
  split; [apply load_loop_gauges | apply load_loop_counters].
Qed.

(** X6.  Loading merges into the storage: a name that no record of the
    file carries reads the same before and after, as a gauge and as a
    counter. *)
Theorem LoadFromFile_keeps_other_names (s : MemStorage) (filename data : string)
    (fs : FS) (metrics : list Metrics) (name : string) :
  fs !! filename = Some (RegularFile data) →
  json_Unmarshal data = inl metrics →
  Forall (λ mtr, ID mtr ≠ name) metrics →
  GetGauge (LoadFromFile s filename fs).1 name = GetGauge s name ∧
  GetCounter (LoadFromFile s filename fs).1 name = GetCounter s name.
Proof.
  intros Hfile Hparse Hnames.
  rewrite (LoadFromFile_regular _ _ _ _ _ Hfile Hparse). simpl.
  unfold GetGauge, GetCounter.
  rewrite load_loop_gauges, load_loop_counters.
  by rewrite (values_for_absent _ _ Hnames), (deltas_for_absent _ _ Hnames).
Qed.

Lemma load_loop_twice metrics s :
  fold_left LoadFromFile_body metrics (fold_left LoadFromFile_body metrics s)
  = fold_left LoadFromFile_body metrics s.
Proof.
  apply MemStorage_eq; apply map_eq; intros name.
  - rewrite !load_loop_gauges.
    by destruct (last (facts.values_for name metrics)).
  - rewrite !load_loop_counters.
    by destruct (last (facts.deltas_for name metrics)).
Qed.

(** X7.  Loading is idempotent: loading the same file a second time gives
    the result of the first load again, the error included. *)
Theorem LoadFromFile_idempotent (s : MemStorage) (filename : string) (fs : FS) :
  LoadFromFile (LoadFromFile s filename fs).1 filename fs
  = LoadFromFile s filename fs.
Proof.
  unfold LoadFromFile.
  destruct (os_ReadFile filename fs) as [data|e].
  - destruct (json_Unmarshal data) as [metrics|e]; simpl; [|reflexivity].
    by rewrite load_loop_twice.
  - by destruct (is_not_exist e).
Qed.

(** X8.  Loading is all or nothing: whenever [LoadFromFile] returns an
    error, for whatever reason, the storage it returns is the one it was
    given. *)
Theorem LoadFromFile_error_keeps_state (s : MemStorage) (filename : string) (fs : FS) :
  (LoadFromFile s filename fs).2 ≠ None → (LoadFromFile s filename fs).1 = s.
Proof.
  unfold LoadFromFile.
  destruct (os_ReadFile filename fs) as [data|e].
  - destruct (json_Unmarshal data) as [metrics|e]; simpl; [done | reflexivity].
  - by destruct (is_not_exist e).
Qed.

End LoadMore.

Lemma LoadFromFile_last_record_witness :
  let data := js "[{'id':'g1','type':'gauge','value':1.5},{'id':'g1','type':'gauge','value':2.5}]" in
  let metrics := [spec.gauge_entry "g1" 1.5; spec.gauge_entry "g1" 2.5] in
  gauges (LoadFromFile (codec := one_document data metrics)
            (UpdateGauge NewMemStorage "g1" 7) "metrics.json"
            {[ "metrics.json" := RegularFile data ]}).1 !! "g1" = Some 2.5%float.
Proof.
  intros data metrics.
  exact (proj1 (LoadFromFile_last_record (codec := one_document data metrics)
                  (UpdateGauge NewMemStorage "g1" 7) "metrics.json" data
                  {[ "metrics.json" := RegularFile data ]} metrics "g1"
                  eq_refl eq_refl)).
Defined.

Lemma LoadFromFile_keeps_other_names_witness :
  let data := js "[{'id':'c1','type':'counter','delta':5}]" in
  let metrics := [spec.counter_entry "c1" 5] in
  GetCounter (LoadFromFile (codec := one_document data metrics)
                (UpdateCounter NewMemStorage "c2" 9) "metrics.json"
                {[ "metrics.json" := RegularFile data ]}).1 "c2" = (9%Z, true).
Proof.
  intros data metrics.
  refine (proj2 (LoadFromFile_keeps_other_names (codec := one_document data metrics)
                   (UpdateCounter NewMemStorage "c2" 9) "metrics.json" data
                   {[ "metrics.json" := RegularFile data ]} metrics "c2"
                   eq_refl eq_refl _)).
  repeat constructor. discriminate.
Defined.

Lemma LoadFromFile_error_keeps_state_witness :
  (LoadFromFile (codec := one_document "[]" [])
     (UpdateGauge NewMemStorage "g1" 7) "metrics.json"
     {[ "metrics.json" := Blocked (ErrOS "permission denied") ]}).1
  = UpdateGauge NewMemStorage "g1" 7.
Proof.
  apply (LoadFromFile_error_keeps_state (codec := one_document "[]" [])).
  discriminate.
Defined.

(** ** what a snapshot holds *)

Section Snapshot.
Context `{order : MapRange}.

(** X9.  The record list [SaveToFile] encodes has exactly one record per
    stored metric: its records are the gauge records of the stored gauges
    and the counter records of the stored counters, and there are as many
    of them as there are metrics. *)
Theorem snapshot_records_complete (s : MemStorage) :
  length (snapshot_records s) = size (gauges s) + size (counters s) ∧
  ∀ r, r ∈ snapshot_records s ↔
       (∃ name v, gauges s !! name = Some v ∧ r = gauge_record (name, v)) ∨
       (∃ name d, counters s !! name = Some d ∧ r = counter_record (name, d)).
Proof.
  rewrite snapshot_records_eq. split.
  - rewrite length_app, !length_fmap.
    rewrite (Permutation_length (map_range_perm _ (gauges s))).
    rewrite (Permutation_length (map_range_perm _ (counters s))).
    by rewrite !length_map_to_list.
  - intros r. rewrite elem_of_app, !list_elem_of_fmap.
    split.
    + intros [([name v] & -> & Hin) | ([name d] & -> & Hin)].
      * left. exists name, v. split; [|done].
        rewrite (map_range_perm _ (gauges s)) in Hin.
        by apply elem_of_map_to_list.
      * right. exists name, d. split; [|done].
        rewrite (map_range_perm _ (counters s)) in Hin.
        by apply elem_of_map_to_list.
    + intros [(name & v & Hin & ->) | (name & d & Hin & ->)].
      * left. exists (name, v). split; [done |].
        rewrite (map_range_perm _ (gauges s)). by apply elem_of_map_to_list.
      * right. exists (name, d). split; [done |].
        rewrite (map_range_perm _ (counters s)). by apply elem_of_map_to_list.
Qed.

Lemma assign_all_onto {V : Type} (l : list (string * V)) (m m0 : gmap string V) :
  l ≡ₚ map_to_list m → spec.assign_all l m0 = m ∪ m0.
Proof.
  intros Hperm. rewrite assign_all_union. f_equal.
  rewrite <- (assign_all_range l m Hperm).
  by rewrite assign_all_union, (right_id_L ∅ (∪)).
Qed.

Lemma load_snapshot_records_onto s s2 :
  fold_left LoadFromFile_body (snapshot_records s) s2 =
    {| gauges := gauges s ∪ gauges s2; counters := counters s ∪ counters s2 |}.
Proof.
  rewrite snapshot_records_eq, fold_left_app.
  rewrite load_gauge_records, load_counter_records. simpl.
  rewrite (assign_all_onto _ (gauges s)) by apply map_range_perm.
  by rewrite (assign_all_onto _ (counters s)) by apply map_range_perm.
Qed.

(** Replaying counter records as a batch on counters that do not hold their
    names assigns the deltas, when these are int64s. *)
Lemma replay_counter_records (cs : list (string * Z)) : ∀ s,
  NoDup cs.*1 →
  Forall (λ kv, counters s !! kv.1 = None ∧ in_int64 kv.2) cs →
  UpdateBatch_loop s (counter_record <$> cs) =
    {| gauges := gauges s; counters := spec.assign_all cs (counters s) |}.
Proof.
  induction cs as [|[k d] cs IH]; intros s Hnd Hcs; simpl.
  - by destruct s.
  - apply NoDup_cons in Hnd as [Hk Hnd].
    apply Forall_cons in Hcs as [[Hnone Hd] Hcs]. simpl in Hnone, Hd.
    rewrite IH; [|done|].
    + unfold spec.assign_all. simpl. rewrite Hnone. simpl.
      by rewrite add64_0_l, wrap64_in_range.
    + unfold UpdateBatch_body. simpl.
      apply Forall_forall. intros [k' d'] Hin.
      rewrite Forall_forall in Hcs. destruct (Hcs _ Hin) as [Hnone' Hd'].
      split; [|done]. simpl in *.
      rewrite lookup_insert_ne; [done |].
      intros <-. apply Hk. apply list_elem_of_fmap. by exists (k, d').
Qed.

Lemma replay_gauge_records (gs : list (string * float)) : ∀ s,
  UpdateBatch_loop s (gauge_record <$> gs) =
    {| gauges := spec.assign_all gs (gauges s); counters := counters s |}.
Proof.
  induction gs as [|kv gs IH]; intros s; simpl.
  - by destruct s.
  - by rewrite IH.
Qed.

(** X11.  A snapshot replayed as a batch restores the storage: when the
    stored counters are int64s, [UpdateBatch] of the record list
    [SaveToFile] encodes, on a new storage, returns the storage the list
    was taken from. *)
Theorem UpdateBatch_of_snapshot (s : MemStorage) :
  map_Forall (λ _ v, in_int64 v) (counters s) →
  UpdateBatch NewMemStorage (snapshot_records s) = (s, None).
Proof.
  intros Hint. unfold UpdateBatch. f_equal.
  rewrite snapshot_records_eq, UpdateBatch_loop_app.
  rewrite replay_gauge_records, replay_counter_records; simpl.
  - rewrite (assign_all_range _ (gauges s)) by apply map_range_perm.
    rewrite (assign_all_range _ (counters s)) by apply map_range_perm.
    by destruct s.
  - rewrite (map_range_perm _ (counters s)). apply NoDup_fst_map_to_list.
  - apply Forall_forall. intros [k d] Hin. simpl.
    split; [apply lookup_empty |].
    rewrite (map_range_perm _ (counters s)) in Hin.
    apply elem_of_map_to_list in Hin. exact (Hint k d Hin).
Qed.

End Snapshot.

Lemma UpdateBatch_of_snapshot_witness :
  let s := UpdateCounter (UpdateGauge NewMemStorage "g1" 1.25) "c1" 5 in
  UpdateBatch NewMemStorage (snapshot_records (order := listed_order) s) = (s, None).
Proof.
  intros s. apply (UpdateBatch_of_snapshot (order := listed_order)).
  apply map_Forall_insert_2; [|apply map_Forall_empty].
  unfold in_int64. split; by vm_compute.
Defined.

(** X10.  Loading a saved file into a storage that already holds metrics
    merges: after [SaveToFile] of [s] has written the file and with a
    decoder that reads the encoder's text back, [LoadFromFile] into any
    storage [s2] returns nil and, for gauges and for counters, the entries
    of [s] together with those entries of [s2] whose names [s] does not
    hold. *)
Theorem SaveToFile_LoadFromFile_merges `{order : MapRange} `{codec : JSON}
    (s s2 : MemStorage) (filename : string) (fs fs' : FS) :
  SaveToFile s filename fs = (fs', None) →
  (∀ data, json_MarshalIndent (snapshot_records s) = inl data →
           json_Unmarshal data = inl (snapshot_records s)) →
  LoadFromFile s2 filename fs' =
    ({| gauges := gauges s ∪ gauges s2; counters := counters s ∪ counters s2 |},
     None).
Proof.
  unfold SaveToFile. intros Hsave Hcodec.
  destruct (json_MarshalIndent (snapshot_records s)) as [data|e] eqn:Henc;
    [|discriminate Hsave].
  unfold LoadFromFile.
  rewrite (os_ReadFile_after_WriteFile _ _ _ _ Hsave).
  rewrite (Hcodec data eq_refl).
  by rewrite load_snapshot_records_onto.
Qed.

Lemma SaveToFile_LoadFromFile_merges_witness :
  let s := UpdateCounter (UpdateGauge NewMemStorage "g1" 1.25) "c1" 5 in
  let s2 := UpdateCounter (UpdateCounter NewMemStorage "c1" 100) "c2" 9 in
  let data := js "[{'id':'g1','type':'gauge','value':1.25},{'id':'c1','type':'counter','delta':5}]" in
  let records := snapshot_records (order := listed_order) s in
  LoadFromFile (codec := one_document data records) s2
    "metrics.json" {[ "metrics.json" := RegularFile data ]}
  = ({| gauges := gauges s ∪ gauges s2; counters := counters s ∪ counters s2 |},
     None).
Proof.
  intros s s2 data records.
  apply (SaveToFile_LoadFromFile_merges (order := listed_order)
           (codec := one_document data records) s s2 "metrics.json" ∅).
  - reflexivity.
  - intros data' Henc. inversion Henc. reflexivity.
Defined.

(** ** the saving loop *)

Section Periodic.
Context `{order : MapRange} `{codec : JSON}.

Lemma SaveToFile_writable s filename fs :
  (∀ e, fs !! filename ≠ Some (Blocked e)) →
  SaveToFile s filename fs =
    match json_MarshalIndent (snapshot_records s) with
    | inl data => (<[filename := RegularFile data]> fs, None)
    | inr e => (fs, Some e)
    end.
Proof.
  intros Hfree. unfold SaveToFile, os_WriteFile.
  destruct (json_MarshalIndent (snapshot_records s)) as [data|e]; [|reflexivity].
  destruct (fs !! filename) as [[old|e]|] eqn:Hf; try reflexivity.
  by destruct (Hfree e).
Qed.

(** X12.  The saving loop outlives failed saves: when the path can be
    written, after any run of ticks the file holds the encoding of the last
    storage that could be encoded, however many saves before or after it
    failed (the file is as before when none could), and no other path has
    changed. *)
Theorem PeriodicStore_keeps_last_good (filename : string)
    (ticks : list MemStorage) (fs : FS) :
  (∀ e, fs !! filename ≠ Some (Blocked e)) →
  repository_periodic.PeriodicStore filename ticks fs !! filename =
    match last (facts.encoded ticks) with
    | Some data => Some (RegularFile data)
    | None => fs !! filename
    end ∧
  ∀ other, other ≠ filename →
    repository_periodic.PeriodicStore filename ticks fs !! other = fs !! other.
Proof.
  revert fs. induction ticks as [|s later IH]; intros fs Hfree; [done |].
  simpl. rewrite (SaveToFile_writable _ _ _ Hfree).
  unfold facts.encoded. simpl. fold (facts.encoded later).
  destruct (json_MarshalIndent (snapshot_records s)) as [data|e].
  - destruct (IH (<[filename := RegularFile data]> fs)) as [Hfile Hother].
    { intros e. by rewrite lookup_insert_eq. }
    split.
    + rewrite Hfile, last_cons, lookup_insert_eq.
      by destruct (last (facts.encoded later)).
    + intros other Hne. rewrite (Hother other Hne). by rewrite lookup_insert_ne.
  - exact (IH fs Hfree).
Qed.

End Periodic.

Lemma PeriodicStore_keeps_last_good_witness :
  repository_periodic.PeriodicStore (order := listed_order)
    (codec := one_document "snapshot" []) "metrics.json"
    [NewMemStorage; UpdateGauge NewMemStorage "g1" 1.5] ∅ !! "metrics.json"
  = Some (RegularFile "snapshot").
Proof.
  refine (proj1 (PeriodicStore_keeps_last_good (order := listed_order)
                   (codec := one_document "snapshot" []) "metrics.json"
                   [NewMemStorage; UpdateGauge NewMemStorage "g1" 1.5] ∅ _)).
  intros e. discriminate.
Defined.

(** ** the sinks *)

Section NetworkSinkMore.
Context {W : Type} `{net : audit.HTTP W}.

(** X13.  The network sink never reports success without an answer: when
    [Send] returns nil, the event was encoded, the POST request to the
    sink's URL was built, the client was called once with it and returned a
    response, and that response's status is below 300. *)
Theorem HTTPSink_Send_nil_means_answered (s : audit.HTTPSink) (ev : audit.Event)
    (w : W) :
  (audit.HTTPSink_Send s ev w).2 = None →
  ∃ body req resp,
    audit.json_Marshal ev = inl body ∧
    audit.http_NewRequestWithContext "POST" (audit.url s) body = inl req ∧
    audit.client_Do (audit.Header_Set_ContentType req "application/json") w
      = (inl resp, (audit.HTTPSink_Send s ev w).1) ∧
    (audit.StatusCode resp < 300)%Z.
Proof.
  unfold audit.HTTPSink_Send.
  destruct (audit.json_Marshal ev) as [body|e] eqn:Henc; [|discriminate].
  destruct (audit.http_NewRequestWithContext "POST" (audit.url s) body)
    as [req|e] eqn:Hreq; [|discriminate].
  destruct (audit.client_Do _ w) as [[resp|e] w'] eqn:Hdo; [|discriminate].
  destruct (Z.leb_spec 300 (audit.StatusCode resp)) as [Hge|Hlt];
    [discriminate |].
  intros _. exists body, req, resp. simpl.
  split; [reflexivity |]. split; [exact Hreq |]. split; [exact Hdo | exact Hlt].
Qed.

End NetworkSinkMore.

Lemma HTTPSink_Send_nil_means_answered_witness :
  ∃ body req resp,
    audit.json_Marshal (HTTP := answering 204)
      {| audit.TS := 7; audit.Metrics := ["g1"]; audit.IPAddress := "192.0.2.55" |}
      = inl body ∧
    audit.http_NewRequestWithContext (HTTP := answering 204) "POST"
      "http://audit.local/events" body = inl req ∧
    audit.client_Do (HTTP := answering 204)
      (audit.Header_Set_ContentType req "application/json") tt = (inl resp, tt) ∧
    (audit.StatusCode resp < 300)%Z.
Proof.
  exact (HTTPSink_Send_nil_means_answered (net := answering 204)
           (audit.NewHTTPSink "http://audit.local/events")
           {| audit.TS := 7; audit.Metrics := ["g1"]; audit.IPAddress := "192.0.2.55" |}
           tt eq_refl).
Defined.

Lemma string_app_assoc (a b c : string) :
  (a ++ (b ++ c))%string = ((a ++ b) ++ c)%string.
Proof.
  induction a as [|ch a IH]; [reflexivity |].
  change (String ch (a ++ (b ++ c)) = String ch ((a ++ b) ++ c))%string.
  by f_equal.
Qed.

Lemma string_app_nil_r (a : string) : (a ++ "")%string = a.
Proof.
  induction a as [|ch a IH]; [reflexivity |].
  change (String ch (a ++ "") = String ch a)%string.
  by f_equal.
Qed.

Section FileSinkMore.
Context `{enc : audit_file.Encoder}.

Lemma FileSink_Send_writable s ev fs :
  (∀ e, fs !! audit_file.path s ≠ Some (Blocked e)) →
  audit_file.FileSink_Send s ev fs =
    match audit_file.json_Marshal ev with
    | inl b =>
        (<[audit_file.path s :=
             RegularFile (facts.content fs (audit_file.path s)
                          ++ (b ++ audit_file.newline))%string]> fs, None)
    | inr e => (fs, Some e)
    end.
Proof.
  intros Hfree.
  unfold audit_file.FileSink_Send, audit_file.os_OpenFile_append,
    audit_file.File_Write, facts.content.
  destruct (audit_file.json_Marshal ev) as [b|e]; [|reflexivity].
  destruct (fs !! audit_file.path s) as [[old|e]|] eqn:Hf.
  - by rewrite Hf.
  - by destruct (Hfree e).
  - rewrite lookup_insert_eq. by rewrite insert_insert_eq.
Qed.

(** X14.  The file sink only ever appends: after it has been sent a list of
    events, its file holds what it held before (nothing when it did not
    exist) followed by one line per event that could be encoded, the
    encoding and a newline, in the order the events were sent; an event
    that cannot be encoded writes nothing, and no other path changes. *)
Theorem FileSink_appends_lines (s : audit_file.FileSink) (evs : list audit.Event)
    (fs : FS) :
  (∀ e, fs !! audit_file.path s ≠ Some (Blocked e)) →
  facts.content (facts.deliver_each (audit_file.FileSink_Sink s) evs fs)
      (audit_file.path s)
    = (facts.content fs (audit_file.path s) ++ facts.lines evs)%string ∧
  ∀ other, other ≠ audit_file.path s →
    facts.deliver_each (audit_file.FileSink_Sink s) evs fs !! other = fs !! other.
Proof.
  revert fs. unfold facts.deliver_each.
  induction evs as [|ev evs IH]; intros fs Hfree; simpl.
  - by rewrite string_app_nil_r.
  - rewrite (FileSink_Send_writable _ _ _ Hfree).
    destruct (audit_file.json_Marshal ev) as [b|e]; simpl; [|by apply IH].
    destruct (IH (<[audit_file.path s :=
                      RegularFile (facts.content fs (audit_file.path s)
                                   ++ (b ++ audit_file.newline))%string]> fs))
      as [Hfile Hother].
    { intros e. by rewrite lookup_insert_eq. }
    split.
    + etrans; [exact Hfile |].
      unfold facts.content at 1. rewrite lookup_insert_eq.
      by rewrite <- !string_app_assoc.
    + intros other Hne. etrans; [exact (Hother other Hne) |].
      by rewrite lookup_insert_ne.
Qed.

End FileSinkMore.

Lemma FileSink_appends_lines_witness :
  facts.content
    (facts.deliver_each
       (audit_file.FileSink_Sink (enc := facts.address_encoder)
          (audit_file.NewFileSink "audit.log"))
       [ {| audit.TS := 7; audit.Metrics := ["g1"]; audit.IPAddress := "192.0.2.55" |};
         {| audit.TS := 8; audit.Metrics := ["g1"]; audit.IPAddress := "" |};
         {| audit.TS := 9; audit.Metrics := ["c1"]; audit.IPAddress := "192.0.2.56" |} ]
       {[ "audit.log" := RegularFile "old" ]})
    "audit.log"
  = ("old" ++ "192.0.2.55" ++ audit_file.newline
           ++ "192.0.2.56" ++ audit_file.newline)%string.
Proof.
  refine (proj1 (FileSink_appends_lines (enc := facts.address_encoder)
                   (audit_file.NewFileSink "audit.log") _
                   {[ "audit.log" := RegularFile "old" ]} _)).
  intros e. discriminate.
Defined.

(** X15.  The test sink never fails and never holds more than its
    channel's eight events: [Send] returns nil for every event and every
    state of the channel, full or not, and after a list of events has been
    sent the channel holds the events it held and then the new ones up to
    eight in all; the rest are dropped. *)
Theorem memSink_keeps_first_eight (ch evs : list audit.Event) :
  length ch ≤ 8 →
  (∀ ev ch', (audit.Send server_test.memSink ev ch').2 = None) ∧
  facts.deliver_each server_test.memSink evs ch = take 8 (ch ++ evs) ∧
  length (facts.deliver_each server_test.memSink evs ch) ≤ 8.
Proof.
  intros Hlen.
  assert (Hkeeps : facts.deliver_each server_test.memSink evs ch
                   = take 8 (ch ++ evs)).
  { revert ch Hlen. unfold facts.deliver_each.
    induction evs as [|ev evs IH]; intros ch Hlen; simpl.
    - rewrite app_nil_r. by rewrite take_ge.
    - destruct (length ch <? 8)%nat eqn:Hroom; simpl.
      + apply Nat.ltb_lt in Hroom. rewrite IH.
        * by rewrite <- app_assoc.
        * rewrite length_app. simpl. lia.
      + apply Nat.ltb_ge in Hroom. rewrite IH by done.
        rewrite !take_app_le by lia. reflexivity. }
  split; [|split].
  - intros ev ch'. simpl. by destruct (length ch' <? 8)%nat.
  - exact Hkeeps.
  - rewrite Hkeeps, length_take. lia.
Qed.

Lemma memSink_keeps_first_eight_witness :
  let ev n := {| audit.TS := n; audit.Metrics := ["g1"]; audit.IPAddress := "192.0.2.55" |} in
  (audit.Send server_test.memSink (ev 9%Z)
     [ev 1; ev 2; ev 3; ev 4; ev 5; ev 6; ev 7; ev 8]%Z).2 = None ∧
  facts.deliver_each server_test.memSink [ev 8; ev 9; ev 10]%Z
    [ev 1; ev 2; ev 3; ev 4; ev 5; ev 6; ev 7]%Z
  = [ev 1; ev 2; ev 3; ev 4; ev 5; ev 6; ev 7; ev 8]%Z.
Proof.
  intros ev.
  destruct (memSink_keeps_first_eight
              [ev 1; ev 2; ev 3; ev 4; ev 5; ev 6; ev 7]%Z
              [ev 8; ev 9; ev 10]%Z) as (Hnil & Hkeeps & _).
  - simpl. lia.
  - split; [apply Hnil | exact Hkeeps].
Defined.

(** ** the handler's checks and its two paths *)

Section HandlerMore.
Context {S : Type} `{store : handler.Storage S} `{dec : handler.Decoder} {W : Type}.

(** X16.  A request that is not answered 200 is never audited: whatever
    the storage, the sinks and the request, a reply with another status
    leaves the sinks' world exactly as it was. *)
Theorem UpdatesHandler_audits_only_success (storage : S) (key : string)
    (aud : option (audit.Auditor W)) (now : W → audit.Time * W)
    (r : handler.Request) (w : W) :
  handler.status_of (handler.UpdatesHandler storage key aud now r w).1.1 ≠ 200%Z →
  (handler.UpdatesHandler storage key aud now r w).2 = w.
Proof.
  unfold handler.UpdatesHandler.
  destruct (negb (handler.ContentType r =? "")%string &&
            negb (handler.ContentType r =? "application/json")%string);
    [reflexivity |].
  destruct (handler.json_Decode _) as [batch|e]; [|reflexivity].
  destruct (length batch =? 0)%nat; [reflexivity |].
  destruct (handler.apply_batch storage batch) as [storage' [reply|]];
    [reflexivity |].
  simpl. intros Hstatus. by destruct Hstatus.
Qed.

(** X17.  The checks made before the storage is touched: a Content-Type
    that is present and is not exactly [application/json] is answered 415;
    otherwise a body that does not decode is answered 400, and so is an
    empty batch.  In all three cases the storage and the sinks are as they
    were. *)
Theorem UpdatesHandler_request_checks (storage : S) (key : string)
    (aud : option (audit.Auditor W)) (now : W → audit.Time * W)
    (r : handler.Request) (w : W) :
  (handler.ContentType r ≠ "" → handler.ContentType r ≠ "application/json" →
   handler.UpdatesHandler storage key aud now r w =
     (handler.Error "Content-Type must be application/json" 415, storage, w)) ∧
  (handler.ContentType r = "" ∨ handler.ContentType r = "application/json" →
   (∀ e, handler.json_Decode (LimitReader (handler.Body r) (10 * 2 ^ 20)) = inr e →
      handler.UpdatesHandler storage key aud now r w =
        (handler.Error "bad json" 400, storage, w)) ∧
   (handler.json_Decode (LimitReader (handler.Body r) (10 * 2 ^ 20)) = inl [] →
      handler.UpdatesHandler storage key aud now r w =
        (handler.Error "empty batch" 400, storage, w))).
Proof.
  unfold handler.UpdatesHandler. rewrite !String_eqb_decide. split.
  - intros Hne Hnj.
    rewrite (bool_decide_eq_false_2 _ Hne), (bool_decide_eq_false_2 _ Hnj).
    reflexivity.
  - intros Hct.
    assert (Hpass : negb (bool_decide (handler.ContentType r = "")) &&
                    negb (bool_decide (handler.ContentType r = "application/json"))
                    = false).
    { destruct Hct as [-> | ->]; reflexivity. }
    rewrite Hpass. split.
    + intros e Hdec. by rewrite Hdec.
    + intros Hdec. by rewrite Hdec.
Qed.

Lemma fallback_valid_prefix (good rest : list Metrics) : ∀ storage : S,
  Forall facts.valid good →
  handler.fallback storage (good ++ rest) =
    handler.fallback (fold_left facts.point_update good storage) rest.
Proof.
  induction good as [|m good IH]; intros storage Hgood; [reflexivity |].
  apply Forall_cons in Hgood as [Hm Hgood]. simpl.
  rewrite <- (IH _ Hgood). unfold facts.point_update.
  destruct Hm as [field Hfield]. rewrite Hfield.
  unfold spec.required_field in Hfield. rewrite !String_eqb_decide.
  destruct (decide (MType m = "gauge")) as [Hg|Hg].
  - rewrite (bool_decide_eq_true_2 _ Hg).
    destruct (Value m) as [v|]; [|discriminate Hfield].
    by inversion Hfield.
  - rewrite (bool_decide_eq_false_2 _ Hg).
    destruct (decide (MType m = "counter")) as [Hc|Hc]; [|discriminate Hfield].
    rewrite (bool_decide_eq_true_2 _ Hc).
    destruct (Delta m) as [d|]; [|discriminate Hfield].
    by inversion Hfield.
Qed.

Lemma fallback_invalid (bad : Metrics) (rest : list Metrics) (storage : S) :
  ¬ facts.valid bad →
  handler.fallback storage (bad :: rest) =
    (storage, Some (handler.Error (facts.rejection bad) 400)).
Proof.
  intros Hbad. simpl. unfold facts.rejection.
  unfold facts.valid, spec.required_field in Hbad.
  rewrite !String_eqb_decide.
  destruct (decide (MType bad = "gauge")) as [Hg|Hg].
  - rewrite (bool_decide_eq_true_2 _ Hg).
    destruct (Value bad) as [v|]; [|reflexivity].
    destruct Hbad. by eexists.
  - rewrite (bool_decide_eq_false_2 _ Hg).
    destruct (decide (MType bad = "counter")) as [Hc|Hc].
    + rewrite (bool_decide_eq_true_2 _ Hc).
      destruct (Delta bad) as [d|]; [|reflexivity].
      destruct Hbad. by eexists.
    + by rewrite (bool_decide_eq_false_2 _ Hc).
Qed.

Lemma fallback_valid (batch : list Metrics) (storage : S) :
  Forall facts.valid batch →
  handler.fallback storage batch = (fold_left facts.point_update batch storage, None).
Proof.
  intros Hvalid.
  rewrite <- (app_nil_r batch) at 1.
  by rewrite (fallback_valid_prefix batch [] storage Hvalid).
Qed.

(** X18.  The per-item path stops at the first entry it does not accept: on
    a storage without [UpdateBatch], a batch whose first entry without its
    required field (or of unknown kind) comes after the entries [good] is
    answered 400 with the text for that entry; the entries of [good] have
    been applied through the point methods, in order, the entries after the
    bad one have not, and nothing is audited. *)
Theorem UpdatesHandler_stops_at_first_invalid (storage : S) (key : string)
    (aud : option (audit.Auditor W)) (now : W → audit.Time * W)
    (r : handler.Request) (w : W) (good rest : list Metrics) (bad : Metrics) :
  handler.BatchUpdater = None →
  handler.ContentType r = "" ∨ handler.ContentType r = "application/json" →
  handler.json_Decode (LimitReader (handler.Body r) (10 * 2 ^ 20))
    = inl (good ++ bad :: rest) →
  Forall facts.valid good → ¬ facts.valid bad →
  handler.UpdatesHandler storage key aud now r w =
    (handler.Error (facts.rejection bad) 400,
     fold_left facts.point_update good storage, w).
Proof.
  intros Hnobatch Hct Hdec Hgood Hbad.
  unfold handler.UpdatesHandler, handler.apply_batch.
  rewrite Hdec, Hnobatch, (fallback_valid_prefix _ _ _ Hgood),
    (fallback_invalid _ _ _ Hbad).
  destruct Hct as [-> | ->]; simpl; by destruct good.
Qed.

(** X19.  The per-item path accepts a batch exactly when every entry
    carries the field its kind requires, and then it has applied every
    entry through the point methods, in order. *)
Theorem fallback_accepts_iff_valid (storage : S) (batch : list Metrics) :
  ((handler.fallback storage batch).2 = None ↔ Forall facts.valid batch) ∧
  (Forall facts.valid batch →
   handler.fallback storage batch = (fold_left facts.point_update batch storage, None)).
Proof.
  split; [|apply fallback_valid]. split.
  - revert storage. induction batch as [|m batch IH]; intros storage Hok;
      [constructor |].
    destruct (decide (facts.valid m)) as [Hm|Hm].
    + constructor; [exact Hm |].
      change (m :: batch) with ([m] ++ batch) in Hok.
      rewrite (fallback_valid_prefix [m] batch storage) in Hok
        by (by constructor).
      exact (IH _ Hok).
    + by rewrite (fallback_invalid _ _ _ Hm) in Hok.
  - intros Hvalid. by rewrite (fallback_valid _ _ Hvalid).
Qed.

End HandlerMore.

Lemma UpdatesHandler_audits_only_success_witness :
  (handler.UpdatesHandler (dec := one_body "[]" []) NewMemStorage ""
     server_test.newTestAuditor (fixed_clock 1700000000)
     {| handler.ContentType := "text/plain"; handler.Body := "[]";
        handler.ClientIP := "192.0.2.55" |} []).2 = [].
Proof.
  apply (UpdatesHandler_audits_only_success (dec := one_body "[]" [])).
  simpl. discriminate.
Defined.

(** A Content-Type with a parameter is not accepted. *)
Lemma UpdatesHandler_request_checks_witness :
  handler.UpdatesHandler (dec := one_body "[]" []) NewMemStorage ""
    server_test.newTestAuditor (fixed_clock 1700000000)
    {| handler.ContentType := "application/json; charset=utf-8";
       handler.Body := "[]"; handler.ClientIP := "192.0.2.55" |} []
  = (handler.Error "Content-Type must be application/json" 415, NewMemStorage, []).
Proof.
  apply (proj1 (UpdatesHandler_request_checks (dec := one_body "[]" [])
                  NewMemStorage "" server_test.newTestAuditor
                  (fixed_clock 1700000000)
                  {| handler.ContentType := "application/json; charset=utf-8";
                     handler.Body := "[]"; handler.ClientIP := "192.0.2.55" |} []));
    simpl; discriminate.
Defined.

Lemma UpdatesHandler_stops_at_first_invalid_witness :
  let bad := {| ID := "c2"; MType := Counter; Delta := None; Value := None |} in
  let batch := [spec.counter_entry "c1" 5; bad; spec.gauge_entry "g1" 1.5] in
  let body := js "[{'id':'c1','type':'counter','delta':5},{'id':'c2','type':'counter'},{'id':'g1','type':'gauge','value':1.5}]" in
  handler.UpdatesHandler (store := facts.point_only) (dec := one_body body batch)
    NewMemStorage "" server_test.newTestAuditor (fixed_clock 1700000000)
    {| handler.ContentType := "application/json"; handler.Body := body;
       handler.ClientIP := "192.0.2.55" |} []
  = (handler.Error "counter without delta" 400,
     UpdateCounter NewMemStorage "c1" 5, []).
Proof.
  intros bad batch body.
  apply (UpdatesHandler_stops_at_first_invalid (store := facts.point_only)
           (dec := one_body body batch) NewMemStorage ""
           server_test.newTestAuditor (fixed_clock 1700000000)
           {| handler.ContentType := "application/json"; handler.Body := body;
              handler.ClientIP := "192.0.2.55" |} []
           [spec.counter_entry "c1" 5] [spec.gauge_entry "g1" 1.5] bad).
  - reflexivity.
  - by right.
  - reflexivity.
  - constructor; [by eexists | constructor].
  - intros [field Hfield]. discriminate Hfield.
Defined.

Lemma fallback_accepts_iff_valid_witness :
  handler.fallback (store := facts.point_only) NewMemStorage
    [spec.counter_entry "c1" 5; spec.gauge_entry "g1" 1.5]
  = (UpdateGauge (UpdateCounter NewMemStorage "c1" 5) "g1" 1.5, None).
Proof.
  apply (proj2 (fallback_accepts_iff_valid (store := facts.point_only)
                  NewMemStorage
                  [spec.counter_entry "c1" 5; spec.gauge_entry "g1" 1.5])).
  constructor; [by eexists |]. constructor; [by eexists | constructor].
Defined.

Section BatchPath.
Context `{dec : handler.Decoder} {W : Type}.

(** X20.  Over [MemStorage] no entry can make a batch fail: every request
    that passes the header and body checks is answered 200, the storage is
    the one [UpdateBatch] returns, and an enabled auditor is notified once,
    with the ids of all entries of the batch in batch order. *)
Theorem UpdatesHandler_MemStorage_accepts (storage : MemStorage) (key : string)
    (aud : option (audit.Auditor W)) (now : W → audit.Time * W)
    (r : handler.Request) (w : W) (batch : list Metrics) :
  handler.ContentType r = "" ∨ handler.ContentType r = "application/json" →
  handler.json_Decode (LimitReader (handler.Body r) (10 * 2 ^ 20)) = inl batch →
  batch ≠ [] →
  handler.UpdatesHandler storage key aud now r w =
    (handler.SignedJSON "ok" key, (UpdateBatch storage batch).1,
     if audit.Enabled aud
     then audit.Notify aud (ID <$> batch) (handler.ClientIP r) now w
     else w).
Proof.
  intros Hct Hdec Hne. unfold handler.UpdatesHandler.
  rewrite Hdec.
  destruct batch as [|met rest]; [done |].
  rewrite collect_names_ids.
  destruct Hct as [-> | ->]; simpl;
    (destruct aud as [au|]; [|reflexivity]);
    by rewrite bool_decide_eq_true_2 by discriminate.
Qed.

End BatchPath.

Lemma UpdatesHandler_MemStorage_accepts_witness :
  let batch := [{| ID := "h1"; MType := "histogram"; Delta := None; Value := None |}] in
  let body := js "[{'id':'h1','type':'histogram'}]" in
  (handler.UpdatesHandler (dec := one_body body batch) NewMemStorage ""
     server_test.newTestAuditor (fixed_clock 1700000000)
     {| handler.ContentType := ""; handler.Body := body;
        handler.ClientIP := "192.0.2.55" |} []).1
  = (handler.SignedJSON "ok" "", NewMemStorage).
Proof.
  intros batch body.
  rewrite (UpdatesHandler_MemStorage_accepts (dec := one_body body batch)
             NewMemStorage "" server_test.newTestAuditor (fixed_clock 1700000000)
             {| handler.ContentType := ""; handler.Body := body;
                handler.ClientIP := "192.0.2.55" |} [] batch).
  - reflexivity.
  - by left.
  - reflexivity.
  - discriminate.
Defined.

Lemma point_update_MemStorage (s : MemStorage) (met : Metrics) :
  facts.point_update (store := facts.point_only) s met = UpdateBatch_body s met.
Proof. by rewrite UpdateBatch_body_spec. Qed.

(** X21.  On a batch whose entries all carry their required field the two
    paths of the handler leave the same storage: the per-item path over
    the point methods of [MemStorage] accepts it and returns what
    [UpdateBatch] returns. *)
Theorem fallback_agrees_with_UpdateBatch (s : MemStorage) (batch : list Metrics) :
  Forall facts.valid batch →
  handler.fallback (store := facts.point_only) s batch
  = ((UpdateBatch s batch).1, None).
Proof.
  intros Hvalid. rewrite (fallback_valid (store := facts.point_only) _ _ Hvalid).
  unfold UpdateBatch. simpl. f_equal. clear Hvalid.
  revert s. induction batch as [|met batch IH]; intros s; simpl; [reflexivity |].
  by rewrite IH, point_update_MemStorage.
Qed.

Lemma fallback_agrees_with_UpdateBatch_witness :
  handler.fallback (store := facts.point_only) NewMemStorage
    [spec.counter_entry "c1" 5; spec.counter_entry "c1" 3]
  = ((UpdateBatch NewMemStorage
        [spec.counter_entry "c1" 5; spec.counter_entry "c1" 3]).1, None).
Proof.
  apply fallback_agrees_with_UpdateBatch.
  constructor; [by eexists |]. constructor; [by eexists | constructor].
Defined.

(** ** the gzip response writer *)

Lemma run_after_headers (calls : list server.call) : ∀ w,
  server.wroteHeaders w = true →
  server.Header (server.run w calls) = server.Header w ∧
  server.wroteHeaders (server.run w calls) = true ∧
  server.statuses (server.run w calls) = server.statuses w ++ server.codes_of calls ∧
  server.compressed (server.run w calls)
    = server.compressed w ++ server.chunks_of calls.
Proof.
  unfold server.run.
  induction calls as [|c calls IH]; intros w Hw; simpl.
  - by rewrite !app_nil_r.
  - destruct c as [code|b]; simpl;
      unfold server.WriteHeader, server.Write; rewrite Hw; simpl.
    + destruct (IH {| server.Header := server.Header w;
                      server.statuses := server.statuses w ++ [code];
                      server.compressed := server.compressed w;
                      server.wroteHeaders := true |} eq_refl)
        as (Hh & Hf & Hs & Hc).
      rewrite Hw in *. rewrite Hh, Hf, Hs, Hc. simpl.
      by rewrite <- app_assoc.
    + destruct (IH {| server.Header := server.Header w;
                      server.statuses := server.statuses w;
                      server.compressed := server.compressed w ++ [b];
                      server.wroteHeaders := true |} eq_refl)
        as (Hh & Hf & Hs & Hc).
      rewrite Hw in *. rewrite Hh, Hf, Hs, Hc. simpl.
      by rewrite <- app_assoc.
Qed.

Lemma run_first_call (h : server.Headers) (c : server.call) :
  server.Header (server.perform (server.wrap h) c) =
    server.Header_Add "Vary" "Accept-Encoding"
      (server.Header_Set "Content-Encoding" "gzip" h) ∧
  server.wroteHeaders (server.perform (server.wrap h) c) = true.
Proof. by destruct c. Qed.

(** X22.  The gzip writer marks the response once: however many times a
    handler calls [WriteHeader] and [Write], and in whatever order, after
    the first call the response has [Content-Encoding: gzip], one more
    [Vary: Accept-Encoding] value than before, and every other header as it
    was. *)
Theorem gzipResponseWriter_marks_once (h : server.Headers)
    (calls : list server.call) :
  calls ≠ [] →
  server.Header (server.run (server.wrap h) calls) !! "Content-Encoding"
    = Some ["gzip"] ∧
  server.Header (server.run (server.wrap h) calls) !! "Vary"
    = Some (default [] (h !! "Vary") ++ ["Accept-Encoding"]) ∧
  ∀ k, k ≠ "Content-Encoding" → k ≠ "Vary" →
    server.Header (server.run (server.wrap h) calls) !! k = h !! k.
Proof.
  intros Hne. destruct calls as [|c calls]; [done |].
  unfold server.run. simpl. fold (server.run (server.perform (server.wrap h) c) calls).
  destruct (run_first_call h c) as [Hh Hf].
  destruct (run_after_headers calls _ Hf) as [Hkeep _].
  rewrite Hkeep, Hh. unfold server.Header_Add, server.Header_Set.
  split; [|split].
  - rewrite lookup_insert_ne by discriminate. by rewrite lookup_insert_eq.
  - rewrite lookup_insert_eq. by rewrite lookup_insert_ne by discriminate.
  - intros k Hce Hvary. by rewrite !lookup_insert_ne.
Qed.

Lemma gzipResponseWriter_marks_once_witness :
  server.Header
    (server.run (server.wrap {[ "Vary" := ["Accept-Encoding"] ]})
       [server.CallWriteHeader 404; server.CallWrite "not found";
        server.CallWriteHeader 500]) !! "Vary"
  = Some ["Accept-Encoding"; "Accept-Encoding"].
Proof.
  refine (proj1 (proj2 (gzipResponseWriter_marks_once
                          {[ "Vary" := ["Accept-Encoding"] ]}
                          [server.CallWriteHeader 404; server.CallWrite "not found";
                           server.CallWriteHeader 500] _))).
  discriminate.
Defined.

(** X23.  The gzip writer passes on every status code the handler gives
    it, in order, and puts a 200 in front exactly when the handler's first
    call is a [Write]; every chunk written goes to the compressor, in
    order. *)
Theorem gzipResponseWriter_forwards (h : server.Headers) (calls : list server.call) :
  server.statuses (server.run (server.wrap h) calls) =
    match calls with
    | server.CallWrite _ :: _ => 200%Z :: server.codes_of calls
    | _ => server.codes_of calls
    end ∧
  server.compressed (server.run (server.wrap h) calls) = server.chunks_of calls.
Proof.
  destruct calls as [|c calls]; [done |].
  unfold server.run. simpl. fold (server.run (server.perform (server.wrap h) c) calls).
  destruct (run_first_call h c) as [_ Hf].
  destruct (run_after_headers calls _ Hf) as (_ & _ & Hs & Hc).
  rewrite Hs, Hc. by destruct c.
Qed.
